(** * Stroke counter plugin: the cross-thread count hand-off

    A shallow embedding of [plover_stroke_counter/plugin.py].  The two
    classes of the source become two modules that keep the method names.
    State is passed explicitly; a method is a function from the object's
    state to the new state and the way the call ended (normal return or a
    Python exception).  Threads and the toolkit's main loop are modelled
    by schedules: lists of atomic actions, one per thing that can happen
    next (a method call from some thread, a timer firing, the main loop
    running the next queued callback). *)

From stdpp Require Import base option list strings pretty gmap.
From Stdlib Require Import ZArith Lia.

(** ** Python exceptions and the way a call ends *)

Inductive exn :=
| AttributeError   (* an attribute set by [run] is read before [run] ran *)
| AssertionError   (* wx.CallAfter: 'No wx.App created yet' *)
| PyNoAppError     (* a wx object is made before the wx.App *)
| ValueError       (* list.remove(x): x not in list *)
| KeyError         (* dict[key] on a missing key *)
| ReferenceLost.   (* a reference that names no object; never produced
                      by the program, see [World_wf] *)

Inductive outcome := Normal | Raised (e : exn).

#[global] Instance exn_eq_dec : EqDecision exn.
Proof. solve_decision. Defined.
#[global] Instance outcome_eq_dec : EqDecision outcome.
Proof. solve_decision. Defined.

(** A method of an object with state [S]: the new state and the
    outcome.  On an exception the state keeps the assignments made before
    it was raised. *)
Definition meth (S : Type) : Type := S -> S * outcome.

Definition ret {S : Type} : meth S := fun s => (s, Normal).
Definition assign {S : Type} (f : S -> S) : meth S := fun s => (f s, Normal).
Definition andthen {S : Type} (m1 m2 : meth S) : meth S := fun s =>
  match m1 s with
  | (s1, Normal) => m2 s1
  | (s1, Raised e) => (s1, Raised e)
  end.
Notation "m1 >> m2" := (andthen m1 m2) (at level 65, right associativity).

(** Sum of a list of integers. *)
Definition sumZ (l : list Z) : Z := foldr Z.add 0%Z l.
Arguments sumZ : simpl never.

(* ================================================================== *)
(** ** class StrokeCounterGUI(threading.Thread) *)
(* ================================================================== *)

Module StrokeCounterGUI.

(** What the source hands to [wx.CallAfter]. *)
Inductive callback :=
| Cb_update_count (strokes : Z)   (* self._update_count, strokes *)
| Cb_reset_count                  (* self._reset_count *)
| Cb_Layout                       (* self.frame.Layout *)
| Cb_Close.                       (* self.frame.Close *)

Inductive window := Shown | Destroyed.

#[global] Instance callback_eq_dec : EqDecision callback.
Proof. solve_decision. Defined.
#[global] Instance window_eq_dec : EqDecision window.
Proof. solve_decision. Defined.

(** Everything [run] creates: the widgets and the wx application with
    its main loop.
    - [pending]: callbacks queued by [wx.CallAfter], oldest first;
    - [timers]: one-shot [wx.CallLater(100, self.process_strokes)]
      timers that are armed and have not fired;
    - [mainloop]: [MainLoop()] is running; it returns when the only
      frame is closed, and a loop that returned runs no callback and
      fires no timer;
    - [polling]: the GUI thread is inside [process_strokes] (used only
      by the fine-grained actions below).
    The toolkit's RuntimeError for calls on a deleted window is not
    modelled: the main loop has returned by then. *)
Record UI := mkUI {
  title : string;
  text : string;
  reset_button : string;
  frame : window;
  pending : list callback;
  timers : nat;
  mainloop : bool;
  polling : bool
}.

(** The attributes of the object.  [ui = None]: the thread was started
    by [__init__] but [run] has not executed yet. *)
Record GUI := mkGUI {
  stroke_count : Z;
  wx_ready : bool;
  stroke_queue : list Z;
  ui : option UI
}.

Definition set_text (s : string) (u : UI) : UI :=
  mkUI (title u) s (reset_button u) (frame u) (pending u) (timers u)
       (mainloop u) (polling u).
Definition set_frame (f : window) (u : UI) : UI :=
  mkUI (title u) (text u) (reset_button u) f (pending u) (timers u)
       (mainloop u) (polling u).
Definition set_pending (p : list callback) (u : UI) : UI :=
  mkUI (title u) (text u) (reset_button u) (frame u) p (timers u)
       (mainloop u) (polling u).
Definition set_timers (n : nat) (u : UI) : UI :=
  mkUI (title u) (text u) (reset_button u) (frame u) (pending u) n
       (mainloop u) (polling u).
Definition set_mainloop (b : bool) (u : UI) : UI :=
  mkUI (title u) (text u) (reset_button u) (frame u) (pending u) (timers u)
       b (polling u).
Definition set_polling (b : bool) (u : UI) : UI :=
  mkUI (title u) (text u) (reset_button u) (frame u) (pending u) (timers u)
       (mainloop u) b.

Definition set_stroke_count (c : Z) (g : GUI) : GUI :=
  mkGUI c (wx_ready g) (stroke_queue g) (ui g).
Definition set_wx_ready (b : bool) (g : GUI) : GUI :=
  mkGUI (stroke_count g) b (stroke_queue g) (ui g).
Definition set_stroke_queue (q : list Z) (g : GUI) : GUI :=
  mkGUI (stroke_count g) (wx_ready g) q (ui g).
Definition set_ui (o : option UI) (g : GUI) : GUI :=
  mkGUI (stroke_count g) (wx_ready g) (stroke_queue g) o.

Definition method := meth GUI.

(** Run a step that needs the widgets; reading [self.frame] or
    [self.text] before [run] made them raises AttributeError. *)
Definition with_widgets (f : UI -> UI) : method := fun g =>
  match ui g with
  | Some u => (set_ui (Some (f u)) g, Normal)
  | None => (g, Raised AttributeError)
  end.

(** [wx.CallAfter(cb)]: append to the application's pending callbacks. *)
Definition wx_CallAfter (cb : callback) : method := fun g =>
  match ui g with
  | Some u => (set_ui (Some (set_pending (pending u ++ [cb]) u)) g, Normal)
  | None => (g, Raised AssertionError)
  end.

(** [wx.CallLater(100, self.process_strokes)]: arm one more timer. *)
Definition wx_CallLater_process_strokes : method := fun g =>
  match ui g with
  | Some u => (set_ui (Some (set_timers (S (timers u)) u)) g, Normal)
  | None => (g, Raised PyNoAppError)
  end.

Definition label_of (count : Z) : string := "Total Strokes: " +:+ pretty count.

(** [__init__]: the state when the constructor returns (the thread is
    started, its [run] has not executed). *)
Definition __init__ : GUI :=
  {| stroke_count := 0; wx_ready := false; stroke_queue := []; ui := None |}.

(** [run], up to the point where [MainLoop()] is entered. *)
Definition run : method :=
  assign (set_ui (Some {| title := "Stroke Counter";
                          text := "Total Strokes: 0";
                          reset_button := "Reset Counter";
                          frame := Shown;               (* self.frame.Show() *)
                          pending := [];
                          timers := 0;
                          mainloop := false;
                          polling := false |})) >>
  assign (set_wx_ready true) >>                         (* self.wx_ready.set() *)
  wx_CallLater_process_strokes >>
  wx_CallAfter Cb_Layout >>
  with_widgets (set_mainloop true).                     (* MainLoop() *)

(** [update_count]: [self.stroke_queue.put(1)].  The queue is unbounded,
    so [put] neither blocks nor raises. *)
Definition update_count : method :=
  assign (fun g => set_stroke_queue (stroke_queue g ++ [1%Z]) g).

(** One iteration of the [while] loop of [process_strokes], entered when
    the queue is not empty: [strokes = self.stroke_queue.get()] then
    [wx.CallAfter(self._update_count, strokes)]. *)
Definition get_and_post (strokes : Z) (rest : list Z) : method :=
  assign (set_stroke_queue rest) >>
  wx_CallAfter (Cb_update_count strokes).

(** The [while not self.stroke_queue.empty()] loop, on the queue as the
    GUI thread finds it. *)
Fixpoint drain_loop (q : list Z) : method :=
  match q with
  | [] => ret
  | strokes :: rest => get_and_post strokes rest >> drain_loop rest
  end.

Definition process_strokes : method := fun g =>
  (drain_loop (stroke_queue g) >> wx_CallLater_process_strokes) g.

Definition _update_count (strokes : Z) : method :=
  assign (fun g => set_stroke_count (stroke_count g + strokes) g) >>
  (fun g => with_widgets (set_text (label_of (stroke_count g))) g).
  (* self.frame.Layout() changes nothing that is modelled *)

Definition reset_count : method := wx_CallAfter Cb_reset_count.

Definition _reset_count : method :=
  assign (set_stroke_count 0) >>
  with_widgets (set_text "Total Strokes: 0").

Definition close : method := fun g =>
  if wx_ready g then
    match ui g with
    | Some _ => wx_CallAfter Cb_Close g
    | None => (g, Raised AttributeError)     (* self.frame *)
    end
  else (g, Normal).

(** *** The main loop and the threads *)

(** What the main loop does when it runs a queued callback. *)
Definition call (cb : callback) : method :=
  match cb with
  | Cb_update_count strokes => _update_count strokes
  | Cb_reset_count => _reset_count
  | Cb_Layout => ret
  | Cb_Close =>
      (* the frame is destroyed; it was the only top-level window, so
         MainLoop() returns *)
      with_widgets (fun u => set_mainloop false (set_frame Destroyed u))
  end.

Inductive action :=
| Call_update_count (thread : nat)  (* some thread calls update_count() *)
| Call_reset_count                  (* the button handler reset_count(event) *)
| Call_close                        (* some thread calls close() *)
| Thread_run                        (* the GUI thread executes run() *)
| Timer_fires                       (* a timer fires: process_strokes() runs
                                       from start to end *)
| Poll_enter                        (* a timer fires: process_strokes() is
                                       entered *)
| Poll_iterate                      (* ... one test of the loop condition,
                                       with the loop body or the exit *)
| Dispatch.                         (* the main loop runs the oldest
                                       pending callback *)

(** What an observer of the GUI thread sees. *)
Inductive obs :=
| Polled                 (* process_strokes was entered *)
| Ran (cb : callback)    (* the main loop ran [cb] *)
| Error (e : exn).       (* a call raised [e] *)

Definition report (before : list obs) (r : GUI * outcome) : GUI * list obs :=
  match r with
  | (g, Normal) => (g, before)
  | (g, Raised e) => (g, before ++ [Error e])
  end.

Definition idle (u : UI) : bool := mainloop u && negb (polling u).

Definition step (a : action) (g : GUI) : GUI * list obs :=
  match a with
  | Call_update_count _ => report [] (update_count g)
  | Call_reset_count => report [] (reset_count g)
  | Call_close => report [] (close g)
  | Thread_run =>
      match ui g with
      | None => report [] (run g)
      | Some _ => (g, [])
      end
  | Timer_fires =>
      match ui g with
      | Some u =>
          if idle u && bool_decide (0 < timers u) then
            report [Polled]
              (process_strokes (set_ui (Some (set_timers (pred (timers u)) u)) g))
          else (g, [])
      | None => (g, [])
      end
  | Poll_enter =>
      match ui g with
      | Some u =>
          if idle u && bool_decide (0 < timers u) then
            (set_ui (Some (set_polling true (set_timers (pred (timers u)) u))) g,
             [Polled])
          else (g, [])
      | None => (g, [])
      end
  | Poll_iterate =>
      match ui g with
      | Some u =>
          if mainloop u && polling u then
            match stroke_queue g with
            | strokes :: rest => report [] (get_and_post strokes rest g)
            | [] =>
                report []
                  ((wx_CallLater_process_strokes >>
                    with_widgets (set_polling false)) g)
            end
          else (g, [])
      | None => (g, [])
      end
  | Dispatch =>
      match ui g with
      | Some u =>
          if idle u then
            match pending u with
            | cb :: rest =>
                report [Ran cb] (call cb (set_ui (Some (set_pending rest u)) g))
            | [] => (g, [])
            end
          else (g, [])
      | None => (g, [])
      end
  end.

Fixpoint exec (sched : list action) (g : GUI) : GUI * list obs :=
  match sched with
  | [] => (g, [])
  | a :: rest =>
      let '(g1, t1) := step a g in
      let '(g2, t2) := exec rest g1 in
      (g2, t1 ++ t2)
  end.

(** The state, and the trace, a schedule leads to. *)
Definition after (sched : list action) (g : GUI) : GUI := fst (exec sched g).
Definition trace (sched : list action) (g : GUI) : list obs := snd (exec sched g).

(** *** Vocabulary of the properties *)

(** What the window shows. *)
Definition displayed (g : GUI) : option string := text <$> ui g.

(** Nothing is left to do: the queue is empty, no callback is pending
    and the GUI thread is not inside [process_strokes]. *)
Definition drained (g : GUI) : bool :=
  match ui g with
  | Some u =>
      bool_decide (stroke_queue g = []) && bool_decide (pending u = [])
      && negb (polling u)
  | None => false
  end.

(** Steps of the GUI thread itself. *)
Definition gui_thread (a : action) : bool :=
  match a with
  | Thread_run | Timer_fires | Poll_enter | Poll_iterate | Dispatch => true
  | _ => false
  end.

Definition is_put (a : action) : bool :=
  match a with Call_update_count _ => true | _ => false end.

(** Steps of the GUI thread and calls of [update_count] from any thread. *)
Definition gui_or_put (a : action) : bool := gui_thread a || is_put a.

Definition puts (sched : list action) : nat := length (List.filter is_put sched).

(** Calls of [update_count] made by one thread. *)
Definition is_put_by (t : nat) (a : action) : bool :=
  match a with Call_update_count t' => bool_decide (t' = t) | _ => false end.
Definition calls_by (t : nat) (sched : list action) : nat :=
  length (List.filter (is_put_by t) sched).

(** The increments carried by pending callbacks, oldest first. *)
Definition carried (cb : callback) : option Z :=
  match cb with Cb_update_count z => Some z | _ => None end.
Definition inflight (g : GUI) : list Z :=
  match ui g with
  | Some u => omap carried (pending u)
  | None => []
  end.

(** The increments the main loop applied, in the order it applied them. *)
Definition applied_by (o : obs) : option Z :=
  match o with Ran (Cb_update_count z) => Some z | _ => None end.
Definition applied (tr : list obs) : list Z := omap applied_by tr.

(** The effect of a callback, and of a trace, on the count. *)
Definition count_after (c : Z) (cb : callback) : Z :=
  match cb with
  | Cb_update_count z => (c + z)%Z
  | Cb_reset_count => 0%Z
  | _ => c
  end.
Definition replay_obs (c : Z) (o : obs) : Z :=
  match o with Ran cb => count_after c cb | _ => c end.
Definition replay (tr : list obs) (c : Z) : Z := fold_left replay_obs tr c.

(** The count the window will show once everything that is queued has
    been applied. *)
Definition eventual (g : GUI) : Z :=
  (fold_left count_after (match ui g with Some u => pending u | None => [] end)
             (stroke_count g)
   + sumZ (stroke_queue g))%Z.

(** The label agrees with the count. *)
Definition synced (g : GUI) : Prop :=
  match ui g with
  | Some u => text u = label_of (stroke_count g)
  | None => stroke_count g = 0%Z
  end.

(** The label agrees with the count, or a reset that will make it agree
    is pending. *)
Definition settles (g : GUI) : Prop :=
  match ui g with
  | Some u => text u = label_of (stroke_count g) \/ Cb_reset_count ∈ pending u
  | None => stroke_count g = 0%Z
  end.

(** Only unit increments are on their way, and the count is not
    negative. *)
Definition units (g : GUI) : Prop :=
  Forall (fun z => z = 1%Z) (stroke_queue g)
  /\ Forall (fun z => z = 1%Z) (inflight g)
  /\ (0 <= stroke_count g)%Z.

(** The display is running, a poll timer is armed and no close is
    pending. *)
Definition pollable (g : GUI) : bool :=
  match ui g with
  | Some u =>
      idle u && bool_decide (0 < timers u)
      && bool_decide (Cb_Close ∉ pending u)
  | None => false
  end.

Definition is_close (a : action) : bool :=
  match a with Call_close => true | _ => false end.

(** The window is on screen, its main loop runs and no close is
    pending. *)
Definition showing (g : GUI) : Prop :=
  exists u, ui g = Some u /\ frame u = Shown /\ mainloop u = true
            /\ Cb_Close ∉ pending u.

(** The readiness flag is set only once the widgets exist. *)
Definition ready_ok (g : GUI) : Prop := wx_ready g = true -> is_Some (ui g).

(** The poll is single: one timer is armed, or the GUI thread is inside
    [process_strokes] and no timer is armed. *)
Definition one_timer (g : GUI) : Prop :=
  match ui g with
  | Some u => (timers u + (if polling u then 1 else 0) = 1)%nat
  | None => True
  end.

Definition is_reset (a : action) : bool :=
  match a with Call_reset_count => true | _ => false end.

(** An observation that is not an exception. *)
Definition quiet (o : obs) : bool :=
  match o with Error _ => false | _ => true end.

(** Everything counted so far or on its way: the count, the increments
    pending callbacks carry and the increments in the queue. *)
Definition total (g : GUI) : Z :=
  (stroke_count g + sumZ (inflight g) + sumZ (stroke_queue g))%Z.

(** No reset is waiting in the main loop. *)
Definition reset_free (g : GUI) : Prop :=
  match ui g with Some u => Cb_reset_count ∉ pending u | None => True end.

(** The thread has not run, or the window is on screen with no close
    pending. *)
Definition not_closing (g : GUI) : Prop := ui g = None \/ showing g.

(** [n] calls of [update_count]. *)
Definition notify (n : nat) (g : GUI) : GUI :=
  after (replicate n (Call_update_count 0)) g.

(** The display right after it started. *)
Definition started : GUI := after [Thread_run] __init__.

(** One poll and the callbacks it leaves: a schedule that drains a
    running display. *)
Definition poll_schedule (g : GUI) : list action :=
  Timer_fires ::
  replicate (match ui g with Some u => length (pending u) | None => 0 end
             + length (stroke_queue g)) Dispatch.

End StrokeCounterGUI.

(* ================================================================== *)
(** ** class StrokeCounterPlugin *)
(* ================================================================== *)

Module StrokeCounterPlugin.

Import StrokeCounterGUI.

(** The bound method [self.on_stroke], the only callback the plugin
    registers. *)
Inductive hook_callback := self_on_stroke.

#[global] Instance hook_callback_eq_dec : EqDecision hook_callback.
Proof. solve_decision. Defined.

(** The host's hook interface, as the plugin uses it:
    [engine.hook_connect(name, callback)] and
    [engine.hook_disconnect(name, callback)].  The engine is the host's
    object; each call returns its new state and may raise. *)
Class Host (E : Type) := {
  hook_connect : string -> hook_callback -> meth E;
  hook_disconnect : string -> hook_callback -> meth E
}.

(** [list.remove(x)]: drop the first occurrence. *)
Fixpoint list_remove (x : hook_callback) (l : list hook_callback)
  : list hook_callback :=
  match l with
  | [] => []
  | y :: rest => if decide (y = x) then rest else y :: list_remove x rest
  end.

(** Plover's [StenoEngine] keeps a dict from hook name to a list of
    callbacks; [hook_connect] is [self._hooks[hook].append(callback)] and
    [hook_disconnect] is [self._hooks[hook].remove(callback)]. *)
Definition StenoEngine : Type := gmap string (list hook_callback).

Definition StenoEngine_connect (hook : string) (cb : hook_callback)
  : meth StenoEngine := fun e =>
  match e !! hook with
  | Some l => (<[hook := l ++ [cb]]> e, Normal)
  | None => (e, Raised KeyError)
  end.

Definition StenoEngine_disconnect (hook : string) (cb : hook_callback)
  : meth StenoEngine := fun e =>
  match e !! hook with
  | Some l =>
      if bool_decide (cb ∈ l) then (<[hook := list_remove cb l]> e, Normal)
      else (e, Raised ValueError)
  | None => (e, Raised KeyError)
  end.

#[global] Instance StenoEngine_host : Host StenoEngine :=
  {| hook_connect := StenoEngine_connect;
     hook_disconnect := StenoEngine_disconnect |}.

(** An engine with the "stroked" hook and nothing connected. *)
Definition fresh_engine : StenoEngine := {[ "stroked" := [] ]}.

Section Plugin.

Context {E : Type} `{!Host E}.

(** The plugin object ([engine], [gui]), the one-shot
    [threading.Timer(5, self.start)] and the GUI objects that exist.
    [gui] refers to a GUI object by its position in [objects]: dropping
    the reference in [stop] does not end the object's thread. *)
Record World := mkWorld {
  engine : E;
  gui : option nat;
  timer : bool;
  objects : list GUI
}.

Definition set_engine (e : E) (w : World) : World :=
  mkWorld e (gui w) (timer w) (objects w).
Definition set_gui (o : option nat) (w : World) : World :=
  mkWorld (engine w) o (timer w) (objects w).
Definition set_timer (b : bool) (w : World) : World :=
  mkWorld (engine w) (gui w) b (objects w).
Definition set_objects (l : list GUI) (w : World) : World :=
  mkWorld (engine w) (gui w) (timer w) l.

(** Call a method of the engine. *)
Definition on_engine (m : meth E) : meth World := fun w =>
  let '(e, o) := m (engine w) in (set_engine e w, o).

(** Call a method of the object a reference points to. *)
Definition on_object (i : nat) (m : meth GUI) : meth World := fun w =>
  match objects w !! i with
  | Some g => let '(g', o) := m g in (set_objects (<[i := g']> (objects w)) w, o)
  | None => (w, Raised ReferenceLost)
  end.

(** [StrokeCounterGUI()]: a new object, whose thread is started. *)
Definition new_GUI : meth World := fun w =>
  (set_gui (Some (length (objects w)))
     (set_objects (objects w ++ [StrokeCounterGUI.__init__]) w), Normal).

Definition __init__ (e : E) : World * outcome :=
  (on_engine (hook_connect "stroked" self_on_stroke) >>
   assign (set_timer true))               (* threading.Timer(5, self.start).start() *)
  {| engine := e; gui := None; timer := false; objects := [] |}.

Definition start : meth World := fun w =>
  match gui w with
  | None => new_GUI w
  | Some _ => (w, Normal)
  end.

Definition on_stroke : meth World := fun w =>
  match gui w with
  | Some i => on_object i update_count w
  | None => (w, Normal)
  end.

Definition stop : meth World :=
  (fun w => match gui w with
            | Some i => (on_object i close >> assign (set_gui None)) w
            | None => (w, Normal)
            end) >>
  on_engine (hook_disconnect "stroked" self_on_stroke).

Definition plugin_init (e : E) : World * outcome := __init__ e.

(** What can happen next. *)
Inductive event :=
| Call_start                 (* start() is called *)
| Call_stop                  (* the host calls stop() *)
| Stroke                     (* on_stroke(stroke) is called *)
| Start_timer_fires          (* the 5 s timer calls start() *)
| On_GUI (i : nat) (a : action).   (* object [i] takes a step *)

Definition wstep (ev : event) (w : World) : World :=
  match ev with
  | Call_start => fst (start w)
  | Call_stop => fst (stop w)
  | Stroke => fst (on_stroke w)
  | Start_timer_fires =>
      if timer w then fst (start (set_timer false w)) else w
  | On_GUI i a =>
      match objects w !! i with
      | Some g => set_objects (<[i := fst (step a g)]> (objects w)) w
      | None => w
      end
  end.

Definition wexec (evs : list event) (w : World) : World :=
  fold_left (fun w ev => wstep ev w) evs w.

(** The reference of the plugin points to an object, and that object's
    readiness flag is set only once its widgets exist. *)
Definition World_wf (w : World) : bool :=
  match gui w with
  | Some i =>
      match objects w !! i with
      | Some g => implb (wx_ready g) (bool_decide (is_Some (ui g)))
      | None => false
      end
  | None => true
  end.

Definition is_stroke (ev : event) : bool :=
  match ev with Stroke => true | _ => false end.

(** Strokes, and steps of the GUI thread of object [i]. *)
Definition stroke_or_gui (i : nat) (ev : event) : bool :=
  match ev with
  | Stroke => true
  | On_GUI j a => bool_decide (j = i) && gui_thread a
  | _ => false
  end.

Definition strokes (evs : list event) : nat := length (List.filter is_stroke evs).

(** What object [i] sees of a run of the plugin. *)
Definition seen_by (i : nat) (ev : event) : list action :=
  match ev with
  | Stroke => [Call_update_count 0]
  | On_GUI j a => if bool_decide (j = i) then [a] else []
  | _ => []
  end.

(** Every reference is to an existing object, and every object has its
    readiness flag set only once its widgets exist. *)
Definition World_ok (w : World) : Prop :=
  (forall i, gui w = Some i -> (i < length (objects w))%nat)
  /\ Forall ready_ok (objects w).

(** A direct call of [close] on object [i] (the plugin itself calls it
    only from [stop]). *)
Definition closes (i : nat) (ev : event) : bool :=
  match ev with
  | On_GUI j Call_close => bool_decide (j = i)
  | _ => false
  end.

(** Object [i] exists, its window is on screen and the plugin holds no
    reference to it. *)
Definition orphan (i : nat) (w : World) : Prop :=
  gui w <> Some i
  /\ exists g, objects w !! i = Some g /\ showing g.

End Plugin.

Arguments World E : clear implicits.

End StrokeCounterPlugin.

(* ================================================================== *)
(** * Properties *)
(* ================================================================== *)

Import StrokeCounterGUI.

(** Unfold the record updates and the plumbing of methods. *)
Ltac gui_unfold :=
  unfold set_ui, set_stroke_queue, set_stroke_count, set_wx_ready,
         set_text, set_frame, set_pending, set_timers, set_mainloop,
         set_polling in *; cbn in *.

Ltac meth_unfold :=
  unfold report, andthen, assign, ret, with_widgets, wx_CallAfter,
         wx_CallLater_process_strokes in *; gui_unfold.

(** ** Lists of integers *)

Lemma sumZ_app (l1 l2 : list Z) : sumZ (l1 ++ l2) = (sumZ l1 + sumZ l2)%Z.
Proof.
  unfold sumZ; induction l1 as [|x l1 IH]; simpl; [lia | rewrite IH; lia].
Qed.

Lemma sumZ_cons (x : Z) (l : list Z) : sumZ (x :: l) = (x + sumZ l)%Z.
Proof. reflexivity. Qed.

Lemma sumZ_nil : sumZ [] = 0%Z.
Proof. reflexivity. Qed.

Lemma sumZ_ones (l : list Z) :
  Forall (fun z => z = 1%Z) l -> sumZ l = Z.of_nat (length l).
Proof.
  induction 1 as [|x l Hx _ IH]; [reflexivity|].
  rewrite sumZ_cons, IH, length_cons. lia.
Qed.

Lemma sumZ_nonneg (l : list Z) : Forall (fun z => 0 <= z)%Z l -> (0 <= sumZ l)%Z.
Proof.
  induction 1; [rewrite sumZ_nil | rewrite sumZ_cons]; lia.
Qed.

(** ** What [process_strokes] does to a running display *)

Lemma fold_updates (q : list Z) (c : Z) :
  fold_left count_after (map Cb_update_count q) c = (c + sumZ q)%Z.
Proof.
  revert c; induction q as [|z q IH]; intros c; simpl.
  - rewrite sumZ_nil; lia.
  - rewrite IH, sumZ_cons; lia.
Qed.

Lemma carried_updates (q : list Z) : omap carried (map Cb_update_count q) = q.
Proof. induction q as [|z q IH]; [reflexivity | cbn; f_equal; exact IH]. Qed.

Lemma drain_loop_spec (q : list Z) (c : Z) (r : bool) (u : UI) :
  drain_loop q (mkGUI c r q (Some u))
  = (mkGUI c r [] (Some (set_pending (pending u ++ map Cb_update_count q) u)),
     Normal).
Proof.
  revert u; induction q as [|z q IH]; intros u.
  - destruct u; simpl; by rewrite app_nil_r.
  - cbn [drain_loop]. unfold andthen at 1. cbn. gui_unfold.
    rewrite IH. cbn. by rewrite <- app_assoc.
Qed.

Lemma process_strokes_spec (c : Z) (r : bool) (q : list Z) (u : UI) :
  process_strokes (mkGUI c r q (Some u))
  = (mkGUI c r []
       (Some (set_timers (S (timers u))
                (set_pending (pending u ++ map Cb_update_count q) u))),
     Normal).
Proof.
  unfold process_strokes, andthen. cbn [stroke_queue]. by rewrite drain_loop_spec.
Qed.

(** ** One step of the display *)

#[local] Arguments process_strokes : simpl never.

(** Split a step into its cases: the action, whether the widgets exist,
    and then whatever the step itself tests (the flags of the main loop,
    the head of the queue, the head of the pending callbacks). *)
Ltac step_split :=
  repeat match goal with
    | |- context [if ?b then _ else _] => is_var b; destruct b
    | |- context [andb ?b _] => is_var b; destruct b
    | |- context [negb ?b] => is_var b; destruct b
    | |- context [match ?l with [] => _ | _ :: _ => _ end] => is_var l; destruct l
    | |- context [match ?cb with Cb_Layout => _ | _ => _ end] => is_var cb; destruct cb
    | |- context [bool_decide ?P] => destruct (bool_decide_reflect P)
    | |- context [process_strokes _] => rewrite process_strokes_spec
    | _ => progress (cbn [andb negb])
    end.

Ltac step_cases a g :=
  destruct g as [? ? ? [[? ? ? ? ? ? ? ?]|]]; destruct a;
  unfold step, idle, update_count, reset_count, close, run,
         call, _update_count, _reset_count, get_and_post;
  meth_unfold; step_split; meth_unfold.

Lemma step_eventual (a : action) (g : GUI) :
  eventual (fst (step a g))
  = match a with
    | Call_update_count _ => (eventual g + 1)%Z
    | Call_reset_count =>
        match ui g with
        | Some _ => sumZ (stroke_queue g)
        | None => eventual g
        end
    | _ => eventual g
    end.
Proof.
  step_cases a g; unfold eventual; cbn.
  all: rewrite ?fold_left_app, ?fold_updates, ?sumZ_app, ?sumZ_cons, ?sumZ_nil;
    cbn; try lia.
Qed.

(** Every increment stays in line: what was applied, then what pending
    callbacks carry, then what the queue holds. *)
Lemma step_flow (a : action) (g : GUI) :
  applied (snd (step a g)) ++ inflight (fst (step a g))
    ++ stroke_queue (fst (step a g))
  = inflight g ++ stroke_queue g ++ (if is_put a then [1%Z] else []).
Proof.
  step_cases a g; unfold applied, inflight; cbn.
  all: rewrite ?omap_app, ?carried_updates, ?app_nil_r; cbn;
    rewrite <- ?app_assoc; try reflexivity.
Qed.

(** The count changes only through the callbacks the main loop runs. *)
Lemma step_replay (a : action) (g : GUI) :
  stroke_count (fst (step a g)) = replay (snd (step a g)) (stroke_count g).
Proof. step_cases a g; reflexivity. Qed.

Lemma step_synced (a : action) (g : GUI) : synced g -> synced (fst (step a g)).
Proof.
  unfold synced; step_cases a g; intros Hs; subst; try reflexivity; try assumption.
Qed.

Lemma step_settles (a : action) (g : GUI) : settles g -> settles (fst (step a g)).
Proof.
  unfold settles; step_cases a g; intros Hs; subst;
    try reflexivity; try assumption; try (left; reflexivity).
  all: try (destruct Hs as [Hs|Hs]; [by left | right]).
  all: rewrite ?elem_of_app, ?elem_of_cons in *; try tauto.
  all: try (destruct Hs as [Hs|Hs]; [discriminate Hs | assumption]).
Qed.

Lemma step_units (a : action) (g : GUI) : units g -> units (fst (step a g)).
Proof.
  unfold units, inflight; step_cases a g; intros (Hq & Hp & Hc).
  all: rewrite ?omap_app, ?carried_updates, ?Forall_app, ?Forall_cons in *;
    cbn in *; rewrite ?Forall_cons in *; repeat split;
    try tauto; try lia; try (by constructor).
Qed.

(** ** Schedules *)

Lemma exec_cons (a : action) (sched : list action) (g : GUI) :
  exec (a :: sched) g
  = (after sched (fst (step a g)), snd (step a g) ++ trace sched (fst (step a g))).
Proof.
  unfold after, trace; cbn [exec].
  destruct (step a g) as [g1 t1]; cbn. by destruct (exec sched g1).
Qed.

Lemma after_cons (a : action) (sched : list action) (g : GUI) :
  after (a :: sched) g = after sched (fst (step a g)).
Proof. unfold after at 1. by rewrite exec_cons. Qed.

Lemma trace_cons (a : action) (sched : list action) (g : GUI) :
  trace (a :: sched) g = snd (step a g) ++ trace sched (fst (step a g)).
Proof. unfold trace at 1. by rewrite exec_cons. Qed.

Lemma after_app (s1 s2 : list action) (g : GUI) :
  after (s1 ++ s2) g = after s2 (after s1 g).
Proof.
  revert g; induction s1 as [|a s1 IH]; intros g; [reflexivity|].
  by rewrite <- app_comm_cons, !after_cons, IH.
Qed.

Lemma trace_app (s1 s2 : list action) (g : GUI) :
  trace (s1 ++ s2) g = trace s1 g ++ trace s2 (after s1 g).
Proof.
  revert g; induction s1 as [|a s1 IH]; intros g; [reflexivity|].
  by rewrite <- app_comm_cons, !trace_cons, after_cons, IH, app_assoc.
Qed.

(** Induction on a schedule for a property every step keeps. *)
Lemma after_invariant (P : GUI -> Prop) :
  (forall a g, P g -> P (fst (step a g))) ->
  forall sched g, P g -> P (after sched g).
Proof.
  intros Hstep sched; induction sched as [|a sched IH]; intros g Hg; [exact Hg|].
  rewrite after_cons. by apply IH, Hstep.
Qed.

Lemma puts_cons (a : action) (sched : list action) :
  puts (a :: sched) = ((if is_put a then 1 else 0) + puts sched)%nat.
Proof. unfold puts; cbn. by destruct (is_put a). Qed.

(** Without a reset, the count that will be shown grows by one with
    each call of [update_count] and with nothing else. *)
Lemma after_eventual (sched : list action) (g : GUI) :
  forallb gui_or_put sched = true ->
  eventual (after sched g) = (eventual g + Z.of_nat (puts sched))%Z.
Proof.
  revert g; induction sched as [|a sched IH]; intros g Hall.
  - cbn. lia.
  - cbn [forallb] in Hall. apply andb_prop in Hall as [Ha Hall].
    rewrite after_cons, IH, step_eventual, puts_cons by exact Hall.
    destruct a; cbn in Ha |- *; try discriminate; lia.
Qed.

Lemma after_flow (sched : list action) (g : GUI) :
  applied (trace sched g) ++ inflight (after sched g)
    ++ stroke_queue (after sched g)
  = inflight g ++ stroke_queue g ++ replicate (puts sched) 1%Z.
Proof.
  revert g; induction sched as [|a sched IH]; intros g.
  - cbn. by rewrite app_nil_r.
  - rewrite trace_cons, after_cons, puts_cons. unfold applied in *.
    rewrite omap_app, <- app_assoc, IH.
    rewrite !app_assoc, <- (app_assoc _ (inflight _)).
    fold (applied (snd (step a g))). rewrite step_flow.
    destruct (is_put a); cbn; rewrite <- ?app_assoc, ?app_nil_r; reflexivity.
Qed.

Lemma after_replay (sched : list action) (g : GUI) :
  stroke_count (after sched g) = replay (trace sched g) (stroke_count g).
Proof.
  revert g; induction sched as [|a sched IH]; intros g; [reflexivity|].
  rewrite trace_cons, after_cons, IH, step_replay.
  unfold replay. by rewrite fold_left_app.
Qed.

(** ** Drained displays *)

Lemma drained_inv (g : GUI) :
  drained g = true ->
  exists u, ui g = Some u /\ stroke_queue g = [] /\ pending u = []
            /\ polling u = false.
Proof.
  unfold drained. destruct (ui g) as [u|]; [|discriminate].
  intros H. apply andb_prop in H as [H Hp]. apply andb_prop in H as [Hq Hpe].
  apply bool_decide_eq_true in Hq, Hpe. apply negb_true_iff in Hp. eauto.
Qed.

Lemma drained_eventual (g : GUI) :
  drained g = true -> eventual g = stroke_count g.
Proof.
  intros (u & Hu & Hq & Hp & _)%drained_inv.
  unfold eventual. rewrite Hu, Hq, Hp, sumZ_nil. cbn. lia.
Qed.

Lemma drained_flow (g : GUI) :
  drained g = true -> inflight g = [] /\ stroke_queue g = [].
Proof.
  intros (u & Hu & Hq & Hp & _)%drained_inv.
  unfold inflight. by rewrite Hu, Hp.
Qed.

Lemma drained_settles (g : GUI) :
  drained g = true -> settles g ->
  displayed g = Some (label_of (stroke_count g)).
Proof.
  intros (u & Hu & _ & Hp & _)%drained_inv. unfold settles, displayed.
  rewrite Hu, Hp. cbn. intros [Ht|Hin]; [by rewrite Ht|]. by apply elem_of_nil in Hin.
Qed.

Lemma synced_settles (g : GUI) : synced g -> settles g.
Proof. unfold synced, settles. destruct (ui g); [by left | done]. Qed.

(** ** A poll that drains the display *)

Lemma dispatch_all (p : list callback) :
  Cb_Close ∉ p ->
  forall c r ti tx rb fr n, exists c' tx',
    after (replicate (length p) Dispatch)
          (mkGUI c r [] (Some (mkUI ti tx rb fr p n true false)))
    = mkGUI c' r [] (Some (mkUI ti tx' rb fr [] n true false)).
Proof.
  induction p as [|cb p IH]; intros Hno c r ti tx rb fr n.
  - by exists c, tx.
  - apply not_elem_of_cons in Hno as [Hcb Hno].
    cbn [length replicate]. rewrite after_cons.
    destruct cb; try congruence; cbn; apply IH; assumption.
Qed.

Lemma poll_schedule_drains (g : GUI) :
  pollable g = true -> drained (after (poll_schedule g) g) = true.
Proof.
  unfold pollable, poll_schedule.
  destruct g as [c r q [[ti tx rb fr p n ml po]|]]; [|discriminate].
  cbn [ui stroke_queue pending]. intros H.
  apply andb_prop in H as [H Hno]. apply andb_prop in H as [Hidle Hn].
  apply bool_decide_eq_true in Hno, Hn.
  rewrite after_cons. unfold step. cbn [ui timers].
  rewrite Hidle, (bool_decide_eq_true_2 _ Hn). cbn [andb].
  unfold idle in Hidle; cbn in Hidle.
  apply andb_prop in Hidle as [-> ->%negb_true_iff].
  gui_unfold. rewrite process_strokes_spec. cbn.
  assert (Hno' : Cb_Close ∉ p ++ map Cb_update_count q).
  { rewrite elem_of_app. intros [?|Hin]; [done|].
    apply list_elem_of_fmap in Hin as (? & ? & _). discriminate. }
  destruct (dispatch_all _ Hno' c r ti tx rb fr (S (Init.Nat.pred n)))
    as (c' & tx' & Heq).
  rewrite length_app, length_map in Heq. gui_unfold. rewrite Heq. reflexivity.
Qed.

Lemma gui_thread_only (sched : list action) :
  forallb gui_thread sched = true ->
  forallb gui_or_put sched = true /\ puts sched = 0%nat.
Proof.
  induction sched as [|a sched IH]; [done|].
  cbn [forallb]. intros [Ha Hall]%andb_prop. destruct (IH Hall) as [IH1 IH2].
  rewrite puts_cons, IH2. unfold gui_or_put at 1. rewrite Ha, IH1.
  by destruct a.
Qed.

Lemma puts_replicate (n t : nat) : puts (replicate n (Call_update_count t)) = n.
Proof. induction n as [|n IH]; [done|]. cbn [replicate]. by rewrite puts_cons, IH. Qed.

Lemma notify_eventual (n : nat) (g : GUI) :
  eventual (notify n g) = (eventual g + Z.of_nat n)%Z.
Proof.
  unfold notify. rewrite after_eventual, puts_replicate; [done|].
  induction n; [done | assumption].
Qed.

Lemma notify_spec (n : nat) (g : GUI) :
  notify n g = set_stroke_queue (stroke_queue g ++ replicate n 1%Z) g.
Proof.
  revert g; induction n as [|n IH]; intros g.
  - destruct g; unfold notify; cbn. gui_unfold. by rewrite app_nil_r.
  - unfold notify in *. cbn [replicate]. rewrite after_cons, IH.
    destruct g; cbn. gui_unfold. by rewrite <- app_assoc.
Qed.

(** ** C1 *)

(** C1.  Starting from a display that shows 0, [N] calls of
    [update_count] followed by the poll loop running until nothing is
    left leave the count, and the label, at [N]: one poll and the
    callbacks it queues drain the display, and every way the GUI thread
    can reach a drained display gives the same count. *)
Theorem notify_then_drain (N : nat) :
  drained (after (poll_schedule (notify N started)) (notify N started)) = true
  /\ forall sched : list action,
       forallb gui_thread sched = true ->
       drained (after sched (notify N started)) = true ->
       stroke_count (after sched (notify N started)) = Z.of_nat N
       /\ displayed (after sched (notify N started))
          = Some ("Total Strokes: " +:+ pretty (Z.of_nat N)).
Proof.
  split.
  - apply poll_schedule_drains. rewrite notify_spec. reflexivity.
  - intros sched Hgui Hdr. destruct (gui_thread_only _ Hgui) as [Hall Hputs].
    assert (Hc : stroke_count (after sched (notify N started)) = Z.of_nat N).
    { rewrite <- (drained_eventual _ Hdr), after_eventual, Hputs by exact Hall.
      rewrite notify_eventual. change (eventual started) with 0%Z. lia. }
    split; [exact Hc|].
    rewrite <- Hc. apply drained_settles; [exact Hdr|].
    apply synced_settles, after_invariant; [apply step_synced|].
    unfold notify. apply after_invariant; [apply step_synced|]. reflexivity.
Qed.

Lemma notify_then_drain_witness :
  drained (after [Dispatch; Poll_enter; Poll_iterate; Poll_iterate;
                  Poll_iterate; Poll_iterate; Dispatch; Dispatch; Dispatch]
                 (notify 3 started)) = true
  /\ stroke_count
       (after [Dispatch; Poll_enter; Poll_iterate; Poll_iterate;
               Poll_iterate; Poll_iterate; Dispatch; Dispatch; Dispatch]
              (notify 3 started)) = 3%Z
  /\ displayed
       (after [Dispatch; Poll_enter; Poll_iterate; Poll_iterate;
               Poll_iterate; Poll_iterate; Dispatch; Dispatch; Dispatch]
              (notify 3 started)) = Some "Total Strokes: 3".
Proof.
  split; [reflexivity|].
  apply (proj2 (notify_then_drain 3)); reflexivity.
Defined.

(** ** C8 *)

Lemma init_invariants :
  eventual StrokeCounterGUI.__init__ = 0%Z
  /\ synced StrokeCounterGUI.__init__ /\ units StrokeCounterGUI.__init__.
Proof.
  unfold synced, units, inflight; cbn. repeat split; try constructor. lia.
Qed.

Lemma interleaved_total (sched : list action) :
  forallb gui_or_put sched = true ->
  drained (after sched StrokeCounterGUI.__init__) = true ->
  stroke_count (after sched StrokeCounterGUI.__init__) = Z.of_nat (puts sched)
  /\ displayed (after sched StrokeCounterGUI.__init__)
     = Some (label_of (Z.of_nat (puts sched))).
Proof.
  intros Hall Hdr.
  assert (Hc : stroke_count (after sched StrokeCounterGUI.__init__)
               = Z.of_nat (puts sched)).
  { rewrite <- (drained_eventual _ Hdr), after_eventual by exact Hall.
    destruct init_invariants as [-> _]. lia. }
  split; [exact Hc|]. rewrite <- Hc.
  apply drained_settles; [exact Hdr|].
  apply synced_settles, after_invariant; [apply step_synced|].
  apply init_invariants.
Qed.

(** C8.  [update_count] can be called in any state of the display; it
    returns normally and appends exactly one unit increment.  Whatever
    the interleaving of such calls, from any threads, with the steps of
    the GUI thread (the poll taken one queue operation at a time), once
    the display is drained the count is the number of calls. *)
Theorem concurrent_notify_total (sched : list action) :
  (forall g : GUI,
     update_count g = (set_stroke_queue (stroke_queue g ++ [1%Z]) g, Normal))
  /\ (forallb gui_or_put sched = true ->
      drained (after sched StrokeCounterGUI.__init__) = true ->
      stroke_count (after sched StrokeCounterGUI.__init__)
      = Z.of_nat (puts sched)
      /\ displayed (after sched StrokeCounterGUI.__init__)
         = Some ("Total Strokes: " +:+ pretty (Z.of_nat (puts sched)))).
Proof. split; [reflexivity | apply interleaved_total]. Qed.

Lemma concurrent_notify_total_witness :
  stroke_count
    (after [Call_update_count 1; Thread_run; Poll_enter; Call_update_count 2;
            Poll_iterate; Call_update_count 1; Poll_iterate; Poll_iterate;
            Poll_iterate; Dispatch; Dispatch; Dispatch; Dispatch]
           StrokeCounterGUI.__init__) = 3%Z
  /\ displayed
       (after [Call_update_count 1; Thread_run; Poll_enter; Call_update_count 2;
               Poll_iterate; Call_update_count 1; Poll_iterate; Poll_iterate;
               Poll_iterate; Dispatch; Dispatch; Dispatch; Dispatch]
              StrokeCounterGUI.__init__) = Some "Total Strokes: 3".
Proof.
  apply (proj2 (concurrent_notify_total
                  [Call_update_count 1; Thread_run; Poll_enter;
                   Call_update_count 2; Poll_iterate; Call_update_count 1;
                   Poll_iterate; Poll_iterate; Poll_iterate;
                   Dispatch; Dispatch; Dispatch; Dispatch])); reflexivity.
Defined.

(** The poll taken one queue operation at a time does what the poll
    taken at once does, when no other thread touches the queue
    meanwhile. *)
Lemma poll_iterations (q : list Z) (c : Z) (r : bool) (u : UI) :
  mainloop u = true -> polling u = true ->
  exec (replicate (length q) Poll_iterate) (mkGUI c r q (Some u))
  = (mkGUI c r [] (Some (set_pending (pending u ++ map Cb_update_count q) u)),
     []).
Proof.
  revert u; induction q as [|z q IH]; intros u Hm Hp.
  - destruct u; cbn. gui_unfold. by rewrite app_nil_r.
  - cbn [length replicate]. rewrite exec_cons. unfold after, trace.
    assert (Hs : step Poll_iterate (mkGUI c r (z :: q) (Some u))
                 = (mkGUI c r q
                      (Some (set_pending (pending u ++ [Cb_update_count z]) u)),
                    [])).
    { unfold step. cbn [ui stroke_queue]. rewrite Hm, Hp. reflexivity. }
    rewrite Hs. cbn [fst snd]. rewrite IH by (destruct u; assumption).
    destruct u; cbn. gui_unfold. by rewrite <- app_assoc.
Qed.

Lemma exec_noop (sched : list action) (g : GUI) :
  Forall (fun a => step a g = (g, [])) sched -> exec sched g = (g, []).
Proof.
  induction 1 as [|a sched Ha _ IH]; [reflexivity|].
  rewrite exec_cons, Ha. cbn [fst snd]. unfold after, trace. by rewrite IH.
Qed.

Lemma poll_in_steps (g : GUI) :
  (forall u, ui g = Some u -> polling u = false) ->
  exec (Poll_enter :: replicate (length (stroke_queue g)) Poll_iterate
          ++ [Poll_iterate]) g
  = exec [Timer_fires] g.
Proof.
  intros Hidle.
  assert (Hoff : step Poll_enter g = (g, []) -> step Poll_iterate g = (g, []) ->
                 step Timer_fires g = (g, []) ->
                 exec (Poll_enter :: replicate (length (stroke_queue g))
                         Poll_iterate ++ [Poll_iterate]) g
                 = exec [Timer_fires] g).
  { intros H1 H2 H3. rewrite !exec_noop; [reflexivity| |].
    - by repeat constructor.
    - constructor; [exact H1|]. apply Forall_app. split; [|by repeat constructor].
      apply Forall_forall. by intros a ->%elem_of_replicate_inv. }
  destruct g as [c r q [[ti tx rb fr p n ml po]|]]; [|by apply Hoff].
  specialize (Hidle _ eq_refl). cbn in Hidle. subst po.
  destruct ml; [|by apply Hoff]. destruct n as [|n]; [by apply Hoff|].
  clear Hoff. cbn [stroke_queue].
  set (g1 := mkGUI c r q (Some (mkUI ti tx rb fr p n true true))).
  set (g3 := mkGUI c r [] (Some (mkUI ti tx rb fr (p ++ map Cb_update_count q)
                                   (S n) true false))).
  assert (Hs1 : step Poll_enter
                  (mkGUI c r q (Some (mkUI ti tx rb fr p (S n) true false)))
                = (g1, [Polled])).
  { unfold step, idle. cbn [ui timers mainloop polling andb negb].
    by rewrite (bool_decide_eq_true_2 (0 < S n)) by lia. }
  assert (Ht : step Timer_fires
                 (mkGUI c r q (Some (mkUI ti tx rb fr p (S n) true false)))
               = (g3, [Polled])).
  { unfold step, idle. cbn [ui timers mainloop polling andb negb].
    rewrite (bool_decide_eq_true_2 (0 < S n)) by lia. cbn [andb].
    gui_unfold. by rewrite process_strokes_spec. }
  rewrite exec_cons, Hs1. cbn [fst snd].
  rewrite after_app, trace_app. unfold after, trace.
  unfold g1 at 1 2 3. rewrite poll_iterations by reflexivity.
  cbn [exec fst snd]. rewrite Ht. reflexivity.
Qed.

(** The calls of a schedule, counted thread by thread. *)
Lemma calls_by_cons (t : nat) (a : action) (sched : list action) :
  calls_by t (a :: sched)
  = ((if is_put_by t a then 1 else 0) + calls_by t sched)%nat.
Proof. unfold calls_by; cbn. by destruct (is_put_by t a). Qed.

Lemma puts_by_threads (k : nat) (sched : list action) :
  (forall t, In (Call_update_count t) sched -> (t < k)%nat) ->
  puts sched = sum_list_with (fun t => calls_by t sched) (seq 0 k).
Proof.
  induction sched as [|a sched IH]; intros Hin.
  - clear Hin. induction (seq 0 k) as [|t l IHl]; [reflexivity | exact IHl].
  - rewrite puts_cons, IH by (intros t Ht; apply Hin; by right).
    assert (Hsplit : forall l : list nat,
      sum_list_with (fun t => calls_by t (a :: sched)) l
      = (sum_list_with (fun t => if is_put_by t a then 1 else 0) l
         + sum_list_with (fun t => calls_by t sched) l)%nat).
    { induction l as [|t l IHl]; [reflexivity|].
      cbn [sum_list_with]. rewrite IHl, calls_by_cons. lia. }
    rewrite Hsplit. f_equal.
    destruct a as [t| | | | | | |]; cbn [is_put is_put_by];
      try (clear; induction (seq 0 k) as [|x l IHl]; [reflexivity | exact IHl]).
    assert (Ht : (t < k)%nat) by (apply Hin; by left).
    clear -Ht. replace k with (t + S (k - S t))%nat by lia.
    rewrite seq_app, sum_list_with_app. cbn [seq sum_list_with].
    rewrite bool_decide_eq_true_2 by reflexivity.
    assert (Hz : forall l : list nat, t ∉ l ->
      sum_list_with (fun t0 => if bool_decide (t = t0) then 1 else 0)%nat l = 0%nat).
    { induction l as [|x l IHl]; [reflexivity|].
      intros [Hx Hl]%not_elem_of_cons. cbn [sum_list_with].
      rewrite bool_decide_eq_false_2, IHl by done. reflexivity. }
    rewrite !Hz; [lia | |].
    + rewrite list_elem_of_In, in_seq. lia.
    + rewrite list_elem_of_In, in_seq. lia.
Qed.

(** The scenario of the specification: ten threads, a hundred calls
    each, in any interleaving with each other and with the GUI thread. *)
Corollary ten_threads_hundred_calls (sched : list action) :
  forallb gui_or_put sched = true ->
  (forall t, In (Call_update_count t) sched -> (t < 10)%nat) ->
  (forall t, (t < 10)%nat -> calls_by t sched = 100%nat) ->
  drained (after sched StrokeCounterGUI.__init__) = true ->
  displayed (after sched StrokeCounterGUI.__init__) = Some "Total Strokes: 1000".
Proof.
  intros Hall Hlt Hcalls Hdr.
  destruct (interleaved_total sched Hall Hdr) as [_ ->].
  rewrite (puts_by_threads 10 sched Hlt). cbn [seq sum_list_with].
  rewrite !Hcalls by lia. reflexivity.
Qed.

(** ** C4 *)

(** C4.  From any state of the display and along any schedule, the
    increments stay in one line in the order they were enqueued: those
    the main loop applied, then those a pending callback carries, then
    those still in the queue.  So none is dropped and none is applied
    twice, and the queue gives one up only to the callback that applies
    it.  The count changes by the applied callbacks and by nothing else,
    and once the display is drained the applied increments are exactly
    the enqueued ones, in order. *)
Theorem increments_applied_once_in_order (g : GUI) (sched : list action) :
  applied (trace sched g) ++ inflight (after sched g)
    ++ stroke_queue (after sched g)
  = inflight g ++ stroke_queue g ++ replicate (puts sched) 1%Z
  /\ stroke_count (after sched g) = replay (trace sched g) (stroke_count g)
  /\ (drained (after sched g) = true ->
      applied (trace sched g)
      = inflight g ++ stroke_queue g ++ replicate (puts sched) 1%Z).
Proof.
  split; [apply after_flow|]. split; [apply after_replay|].
  intros [Hi Hq]%drained_flow. rewrite <- after_flow, Hi, Hq.
  by rewrite !app_nil_r.
Qed.

Lemma increments_applied_once_in_order_witness :
  applied (trace [Timer_fires; Call_update_count 7; Dispatch; Dispatch;
                  Dispatch; Timer_fires; Dispatch]
                 (mkGUI 0 true [5%Z; 2%Z]
                    (Some (mkUI "Stroke Counter" "Total Strokes: 0"
                                "Reset Counter" Shown
                                [Cb_update_count 4] 1 true false))))
  = [4%Z; 5%Z; 2%Z; 1%Z].
Proof.
  apply (increments_applied_once_in_order
           (mkGUI 0 true [5%Z; 2%Z]
              (Some (mkUI "Stroke Counter" "Total Strokes: 0" "Reset Counter"
                          Shown [Cb_update_count 4] 1 true false)))
           [Timer_fires; Call_update_count 7; Dispatch; Dispatch;
            Dispatch; Timer_fires; Dispatch]).
  reflexivity.
Defined.

(** ** C3 *)

Lemma reset_settles (g : GUI) (u : UI) :
  ui g = Some u ->
  settles (fst (reset_count g))
  /\ eventual (fst (reset_count g)) = sumZ (stroke_queue g).
Proof.
  intros Hu. pose proof (step_eventual Call_reset_count g) as He.
  rewrite Hu in He. cbn [step] in He.
  destruct g as [c r q o]; cbn in Hu; subst o.
  unfold reset_count, report in *; meth_unfold. split; [|exact He].
  unfold settles; cbn. right. apply elem_of_app. right. by left.
Qed.

(** C3, as the code has it.  A reset is queued with [wx.CallAfter]
    directly, while increments wait in the queue for the next poll.  So
    after [reset_count] and a full drain the count is the sum of the
    increments that were still in the queue when the reset was
    requested (each is 1, so their number): the count before the reset
    and the increments already handed to the main loop are overwritten,
    the queued ones are applied after the reset.  It is 0 when the queue
    was empty. *)
Theorem reset_then_drain (g : GUI) (u : UI) (sched : list action) :
  ui g = Some u ->
  forallb gui_thread sched = true ->
  drained (after sched (fst (reset_count g))) = true ->
  stroke_count (after sched (fst (reset_count g))) = sumZ (stroke_queue g)
  /\ displayed (after sched (fst (reset_count g)))
     = Some ("Total Strokes: " +:+ pretty (sumZ (stroke_queue g)))
  /\ (Forall (fun z => z = 1%Z) (stroke_queue g) ->
      sumZ (stroke_queue g) = Z.of_nat (length (stroke_queue g))).
Proof.
  intros Hu Hgui Hdr. destruct (gui_thread_only _ Hgui) as [Hall Hputs].
  destruct (reset_settles g u Hu) as [Hset Hev].
  assert (Hc : stroke_count (after sched (fst (reset_count g)))
               = sumZ (stroke_queue g)).
  { rewrite <- (drained_eventual _ Hdr), after_eventual, Hputs, Hev by exact Hall.
    lia. }
  split; [exact Hc|]. split; [|apply sumZ_ones].
  rewrite <- Hc. apply drained_settles; [exact Hdr|].
  apply after_invariant; [apply step_settles | exact Hset].
Qed.

Lemma reset_then_drain_witness :
  stroke_count
    (after [Dispatch; Timer_fires; Dispatch; Dispatch; Dispatch; Dispatch]
           (fst (reset_count
                   (mkGUI 1 true [1%Z; 1%Z]
                      (Some (mkUI "Stroke Counter" "Total Strokes: 1"
                                  "Reset Counter" Shown
                                  [Cb_update_count 1; Cb_update_count 1]
                                  1 true false))))))
  = 2%Z.
Proof.
  refine (proj1 (reset_then_drain
            (mkGUI 1 true [1%Z; 1%Z]
               (Some (mkUI "Stroke Counter" "Total Strokes: 1" "Reset Counter"
                           Shown [Cb_update_count 1; Cb_update_count 1]
                           1 true false)))
            (mkUI "Stroke Counter" "Total Strokes: 1" "Reset Counter"
                  Shown [Cb_update_count 1; Cb_update_count 1] 1 true false)
            [Dispatch; Timer_fires; Dispatch; Dispatch; Dispatch; Dispatch]
            eq_refl eq_refl _)).
  vm_compute. reflexivity.
Defined.

(** The claim as the specification states it fails: one stroke is
    queued, reset is clicked before the next poll, the main loop runs
    the reset, the poll timer fires and the queued increment is applied
    after the reset.  The drained display shows 1, not 0. *)
Lemma reset_then_drain_counterexample :
  forallb gui_thread [Dispatch; Dispatch; Timer_fires; Dispatch] = true
  /\ drained (after [Dispatch; Dispatch; Timer_fires; Dispatch]
                   (fst (reset_count (notify 1 started)))) = true
  /\ stroke_count (after [Dispatch; Dispatch; Timer_fires; Dispatch]
                        (fst (reset_count (notify 1 started)))) <> 0%Z
  /\ displayed (after [Dispatch; Dispatch; Timer_fires; Dispatch]
                     (fst (reset_count (notify 1 started))))
     = Some "Total Strokes: 1".
Proof. repeat split; try (vm_compute; reflexivity). vm_compute. discriminate. Qed.

(** ** C10 *)

Lemma step_showing (a : action) (g : GUI) :
  is_close a = false -> showing g -> showing (fst (step a g)).
Proof.
  unfold showing. intros Ha (u & Hu & Hf & Hm & Hno).
  destruct g as [c r q o]; cbn in Hu; subst o.
  destruct u as [ti tx rb fr p n ml po]; cbn in Hf, Hm, Hno; subst fr ml.
  destruct a; try discriminate Ha;
    unfold step, idle, update_count, reset_count, run,
           call, _update_count, _reset_count, get_and_post;
    meth_unfold; step_split; meth_unfold;
    eexists; (split; [reflexivity|]); cbn; repeat split;
    rewrite ?elem_of_app, ?elem_of_cons, ?list_elem_of_fmap in *;
    try done; try tauto.
  all: try (intros [?|[?|?%elem_of_nil]]; [done | discriminate | done]).
  all: try (intros [?|(? & ? & ?)]; [done | discriminate]).
Qed.

Lemma after_showing (sched : list action) (g : GUI) :
  forallb (fun a => negb (is_close a)) sched = true ->
  showing g -> showing (after sched g).
Proof.
  revert g; induction sched as [|a sched IH]; intros g Hall Hg; [exact Hg|].
  cbn [forallb] in Hall. apply andb_prop in Hall as [Ha Hall].
  rewrite after_cons. apply IH; [exact Hall|].
  apply step_showing; [by apply negb_true_iff | exact Hg].
Qed.

(** C10.  [close] called before the GUI thread has set [wx_ready]
    returns normally and changes nothing: no close is queued.  When the
    thread then runs, the window is shown, and as long as nobody calls
    [close] again it stays shown with its main loop running. *)
Theorem close_before_ready (g : GUI) (sched : list action) :
  wx_ready g = false ->
  ui g = None ->
  forallb (fun a => negb (is_close a)) sched = true ->
  close g = (g, Normal)
  /\ step Call_close g = (g, [])
  /\ exists u, ui (after (Call_close :: Thread_run :: sched) g) = Some u
               /\ frame u = Shown /\ mainloop u = true
               /\ Cb_Close ∉ pending u.
Proof.
  intros Hr Hu Hall.
  assert (Hc : close g = (g, Normal)) by (unfold close; by rewrite Hr).
  assert (Hs : step Call_close g = (g, [])) by (cbn [step]; by rewrite Hc).
  split; [exact Hc|]. split; [exact Hs|].
  rewrite after_cons, Hs. cbn [fst]. rewrite after_cons.
  apply (after_showing sched); [exact Hall|].
  destruct g as [c r q o]; cbn in Hu; subst o.
  unfold step, run; meth_unfold. eexists; split; [reflexivity|]. cbn.
  repeat split. rewrite elem_of_cons. intros [?|Hin]; [discriminate|].
  by apply elem_of_nil in Hin.
Qed.

Lemma close_before_ready_witness :
  exists u,
    ui (after [Call_close; Thread_run; Dispatch; Call_update_count 0;
               Timer_fires; Dispatch; Call_reset_count; Dispatch]
              StrokeCounterGUI.__init__) = Some u
    /\ frame u = Shown /\ mainloop u = true /\ Cb_Close ∉ pending u.
Proof.
  apply (close_before_ready StrokeCounterGUI.__init__
           [Dispatch; Call_update_count 0; Timer_fires; Dispatch;
            Call_reset_count; Dispatch]); reflexivity.
Defined.

(** ** C9 *)

(** C9.  In every state the object can reach from its constructor,
    whatever the threads and the main loop do, the count is not negative
    and, once the widgets exist, the label reads "Total Strokes: "
    followed by the count; before that the count is 0. *)
Theorem count_and_label_agree (sched : list action) :
  (0 <= stroke_count (after sched StrokeCounterGUI.__init__))%Z
  /\ match ui (after sched StrokeCounterGUI.__init__) with
     | Some u =>
         text u = "Total Strokes: "
                  +:+ pretty (stroke_count (after sched StrokeCounterGUI.__init__))
     | None => stroke_count (after sched StrokeCounterGUI.__init__) = 0%Z
     end.
Proof.
  split.
  - apply (after_invariant units step_units sched), init_invariants.
  - apply (after_invariant synced step_synced sched), init_invariants.
Qed.

(* ================================================================== *)
(** * The plugin *)
(* ================================================================== *)

Import StrokeCounterPlugin.

Ltac world_unfold :=
  unfold on_engine, on_object, new_GUI, andthen, assign, ret,
         set_engine, set_gui, set_timer, set_objects in *; cbn in *.

Section PluginFacts.

Context {E : Type} `{!Host E}.

Implicit Types w : World E.

Lemma on_stroke_without_gui w : gui w = None -> on_stroke w = (w, Normal).
Proof. unfold on_stroke. by intros ->. Qed.

Lemma wexec_cons (ev : event) (evs : list event) w :
  wexec (ev :: evs) w = wexec evs (wstep ev w).
Proof. reflexivity. Qed.

Lemma wexec_app (evs1 evs2 : list event) w :
  wexec (evs1 ++ evs2) w = wexec evs2 (wexec evs1 w).
Proof. unfold wexec. apply fold_left_app. Qed.

Lemma strokes_without_gui (evs : list event) w :
  gui w = None -> forallb is_stroke evs = true -> wexec evs w = w.
Proof.
  intros Hg. induction evs as [|ev evs IH]; [reflexivity|].
  cbn [forallb]. intros [Hev Hall]%andb_prop.
  destruct ev; try discriminate Hev.
  rewrite wexec_cons. cbn [wstep]. rewrite on_stroke_without_gui by exact Hg.
  by apply IH.
Qed.

(** What the referenced object goes through while the plugin receives
    strokes and the object's own thread runs. *)
Lemma wexec_seen (i : nat) (evs : list event) :
  forallb (stroke_or_gui i) evs = true ->
  forall w g0,
    gui w = Some i -> objects w !! i = Some g0 ->
    gui (wexec evs w) = Some i
    /\ objects (wexec evs w) !! i = Some (after (flat_map (seen_by i) evs) g0)
    /\ length (objects (wexec evs w)) = length (objects w).
Proof.
  induction evs as [|ev evs IH]; intros Hall w g0 Hg Hobj; [done|].
  cbn [forallb] in Hall. apply andb_prop in Hall as [Hev Hall].
  pose proof (lookup_lt_Some _ _ _ Hobj) as Hlt.
  rewrite wexec_cons. cbn [flat_map]. rewrite after_app.
  destruct ev as [| | | |j a]; try discriminate Hev.
  - (* Stroke *)
    cbn [wstep seen_by]. unfold on_stroke, on_object. rewrite Hg, Hobj.
    cbn. destruct (IH Hall (set_objects (<[i:=fst (update_count g0)]> (objects w)) w)
                     (fst (update_count g0))) as (I1 & I2 & I3).
    + exact Hg.
    + cbn. by apply list_lookup_insert_eq.
    + cbn in I3. rewrite length_insert in I3. done.
  - (* a step of the object's thread *)
    cbn in Hev. apply andb_prop in Hev as [Hj _].
    apply bool_decide_eq_true in Hj. subst j.
    cbn [wstep seen_by]. rewrite Hobj, bool_decide_eq_true_2 by done.
    rewrite (after_cons a [] g0). unfold after at 2. cbn [exec fst].
    destruct (IH Hall (set_objects (<[i:=fst (step a g0)]> (objects w)) w)
                (fst (step a g0))) as (I1 & I2 & I3).
    + exact Hg.
    + cbn. by apply list_lookup_insert_eq.
    + cbn in I3. rewrite length_insert in I3. done.
Qed.

Lemma seen_by_puts (i : nat) (evs : list event) :
  forallb (stroke_or_gui i) evs = true ->
  forallb gui_or_put (flat_map (seen_by i) evs) = true
  /\ puts (flat_map (seen_by i) evs) = strokes evs.
Proof.
  induction evs as [|ev evs IH]; [done|].
  cbn [forallb]. intros [Hev Hall]%andb_prop. destruct (IH Hall) as [I1 I2].
  destruct ev as [| | | |j a]; try discriminate Hev.
  - cbn [flat_map seen_by app forallb]. rewrite I1. split; [done|].
    rewrite puts_cons, I2. reflexivity.
  - cbn in Hev. apply andb_prop in Hev as [Hj Ha].
    cbn [flat_map seen_by]. rewrite Hj. cbn [app forallb].
    unfold gui_or_put at 1. rewrite Ha, I1. split; [done|].
    rewrite puts_cons, I2. unfold strokes. cbn. by destruct a.
Qed.

(** [stop] on a well-formed plugin drops the reference, whatever the
    host answers to the disconnection. *)
Lemma stop_drops_reference w :
  World_wf w = true ->
  gui (fst (stop w)) = None
  /\ snd (stop w)
     = snd (hook_disconnect "stroked" self_on_stroke (engine w))
  /\ engine (fst (stop w))
     = fst (hook_disconnect "stroked" self_on_stroke (engine w)).
Proof.
  unfold World_wf, stop. destruct w as [e [i|] t objs]; cbn [gui objects].
  - destruct (objs !! i) as [g|] eqn:Hobj; [|discriminate].
    intros Hwf. unfold andthen, on_object, assign. cbn [gui objects].
    rewrite Hobj.
    unfold close. destruct g as [c r q [u|]]; cbn [wx_ready ui] in *.
    + destruct r; world_unfold;
        destruct (hook_disconnect "stroked" self_on_stroke e); done.
    + destruct r; [discriminate Hwf|]. world_unfold.
      destruct (hook_disconnect "stroked" self_on_stroke e); done.
  - intros _. world_unfold.
    destruct (hook_disconnect "stroked" self_on_stroke e); done.
Qed.

Lemma stop_without_gui w :
  gui w = None ->
  stop w = on_engine (hook_disconnect "stroked" self_on_stroke) w.
Proof. unfold stop. destruct w as [e o t objs]; cbn. by intros ->. Qed.

(** ** C2 *)

(** C2, as the code has it.  [on_stroke] tests [self.gui] and does
    nothing while it is [None], so strokes delivered before the delayed
    start are dropped.  Once the timer has called [start], every stroke
    is queued: whatever the interleaving of later strokes with the steps
    of the GUI thread, a drained display shows the number of strokes
    delivered after the start. *)
Theorem strokes_counted_from_start w (pre post : list event) :
  gui w = None ->
  timer w = true ->
  forallb is_stroke pre = true ->
  forallb (stroke_or_gui (length (objects w))) post = true ->
  wexec pre w = w
  /\ exists g,
       gui (wexec (pre ++ Start_timer_fires :: post) w)
       = Some (length (objects w))
       /\ objects (wexec (pre ++ Start_timer_fires :: post) w)
            !! length (objects w) = Some g
       /\ (drained g = true ->
           stroke_count g = Z.of_nat (strokes post)
           /\ displayed g
              = Some ("Total Strokes: " +:+ pretty (Z.of_nat (strokes post)))).
Proof.
  intros Hg Ht Hpre Hpost.
  pose proof (strokes_without_gui pre w Hg Hpre) as Hsame.
  split; [exact Hsame|].
  rewrite wexec_app, Hsame, wexec_cons.
  assert (Hstart : wstep Start_timer_fires w
                   = mkWorld (engine w) (Some (length (objects w))) false
                       (objects w ++ [StrokeCounterGUI.__init__])).
  { cbn [wstep]. rewrite Ht. unfold start. cbn [set_timer gui]. by rewrite Hg. }
  rewrite Hstart.
  destruct (wexec_seen (length (objects w)) post Hpost
              (mkWorld (engine w) (Some (length (objects w))) false
                 (objects w ++ [StrokeCounterGUI.__init__]))
              StrokeCounterGUI.__init__) as (I1 & I2 & _).
  { reflexivity. }
  { cbn [objects]. rewrite lookup_app_r by reflexivity.
    by rewrite Nat.sub_diag. }
  eexists. split; [exact I1|]. split; [exact I2|].
  destruct (seen_by_puts _ _ Hpost) as [Hall Hputs].
  intros Hdr. rewrite <- Hputs. by apply interleaved_total.
Qed.

(** ** C5 *)

(** C5.  After [stop] the plugin holds no GUI, so [on_stroke] returns
    normally and changes nothing: no object is created, none is touched,
    and the host is not called, however many strokes arrive. *)
Theorem strokes_after_stop_dropped w (n : nat) :
  World_wf w = true ->
  gui (fst (stop w)) = None
  /\ on_stroke (fst (stop w)) = (fst (stop w), Normal)
  /\ wexec (replicate n Stroke) (fst (stop w)) = fst (stop w).
Proof.
  intros Hwf. destruct (stop_drops_reference w Hwf) as [Hg _].
  split; [exact Hg|]. split; [by apply on_stroke_without_gui|].
  apply strokes_without_gui; [exact Hg|]. by induction n.
Qed.

(** ** C6 *)

(** C6, as the code has it.  A second [start] does nothing.  A second
    [stop] finds no GUI, so it closes nothing and leaves the plugin's
    own state alone, but it calls the host's [hook_disconnect] once
    more: what the second call does is what the host does with a
    disconnection of a callback it has already disconnected. *)
Theorem start_twice_stop_twice w :
  (start >> start) w = start w
  /\ (World_wf w = true ->
      stop (fst (stop w))
      = on_engine (hook_disconnect "stroked" self_on_stroke) (fst (stop w))
      /\ gui (fst (stop (fst (stop w)))) = None
      /\ timer (fst (stop (fst (stop w)))) = timer (fst (stop w))
      /\ objects (fst (stop (fst (stop w)))) = objects (fst (stop w))).
Proof.
  split.
  - unfold andthen, start. destruct w as [e [i|] t objs]; reflexivity.
  - intros Hwf. destruct (stop_drops_reference w Hwf) as [Hg _].
    rewrite (stop_without_gui _ Hg). split; [reflexivity|].
    unfold on_engine.
    destruct (hook_disconnect "stroked" self_on_stroke (engine (fst (stop w)))).
    cbn. by rewrite Hg.
Qed.

End PluginFacts.

Lemma strokes_counted_from_start_witness :
  exists g,
    objects (wexec ([Stroke; Stroke] ++ Start_timer_fires ::
                    [Stroke; On_GUI 0 Thread_run; On_GUI 0 Dispatch; Stroke;
                     On_GUI 0 Timer_fires; On_GUI 0 Dispatch; On_GUI 0 Dispatch])
                   (fst (plugin_init fresh_engine))) !! 0%nat = Some g
    /\ stroke_count g = 2%Z.
Proof.
  assert (H1 : gui (fst (plugin_init fresh_engine)) = None)
    by (vm_compute; reflexivity).
  assert (H2 : timer (fst (plugin_init fresh_engine)) = true)
    by (vm_compute; reflexivity).
  assert (H3 : forallb (stroke_or_gui
                          (length (objects (fst (plugin_init fresh_engine)))))
                 [Stroke; On_GUI 0 Thread_run; On_GUI 0 Dispatch; Stroke;
                  On_GUI 0 Timer_fires; On_GUI 0 Dispatch; On_GUI 0 Dispatch]
               = true) by (vm_compute; reflexivity).
  destruct (strokes_counted_from_start (fst (plugin_init fresh_engine))
              [Stroke; Stroke]
              [Stroke; On_GUI 0 Thread_run; On_GUI 0 Dispatch; Stroke;
               On_GUI 0 Timer_fires; On_GUI 0 Dispatch; On_GUI 0 Dispatch]
              H1 H2 eq_refl H3) as (_ & g & _ & Hobj & Hcount).
  replace (length (objects (fst (plugin_init fresh_engine)))) with 0%nat
    in Hobj by (vm_compute; reflexivity).
  exists g. split; [exact Hobj|].
  apply Hcount. vm_compute in Hobj. injection Hobj as <-. reflexivity.
Defined.

(** The claim as the specification states it fails: a stroke delivered
    before the delayed start is not counted. *)
Lemma strokes_before_start_counterexample :
  strokes [Stroke; Start_timer_fires; On_GUI 0 Thread_run; On_GUI 0 Dispatch;
           On_GUI 0 Timer_fires] = 1%nat
  /\ drained <$> objects (wexec [Stroke; Start_timer_fires; On_GUI 0 Thread_run;
                                 On_GUI 0 Dispatch; On_GUI 0 Timer_fires]
                                (fst (plugin_init fresh_engine))) !! 0%nat
     = Some true
  /\ stroke_count <$> objects (wexec [Stroke; Start_timer_fires;
                                      On_GUI 0 Thread_run; On_GUI 0 Dispatch;
                                      On_GUI 0 Timer_fires]
                                     (fst (plugin_init fresh_engine))) !! 0%nat
     = Some 0%Z
  /\ displayed <$> objects (wexec [Stroke; Start_timer_fires;
                                   On_GUI 0 Thread_run; On_GUI 0 Dispatch;
                                   On_GUI 0 Timer_fires]
                                  (fst (plugin_init fresh_engine))) !! 0%nat
     = Some (Some "Total Strokes: 0").
Proof. repeat split; vm_compute; reflexivity. Qed.

Lemma strokes_after_stop_dropped_witness :
  on_stroke (fst (stop (fst (start (fst (plugin_init fresh_engine))))))
  = (fst (stop (fst (start (fst (plugin_init fresh_engine))))), Normal).
Proof.
  apply (strokes_after_stop_dropped
           (fst (start (fst (plugin_init fresh_engine)))) 0).
  vm_compute. reflexivity.
Defined.

Lemma start_twice_stop_twice_witness :
  gui (fst (stop (fst (stop (fst (start (fst (plugin_init fresh_engine))))))))
  = None.
Proof.
  apply (proj2 (start_twice_stop_twice
                  (fst (start (fst (plugin_init fresh_engine)))))).
  vm_compute. reflexivity.
Defined.

(** The claim as the specification states it fails for [stop]: with
    Plover's engine the first [stop] returns normally and the second one
    raises, because the callback is no longer in the hook's list. *)
Lemma stop_twice_counterexample :
  snd (stop (fst (start (fst (plugin_init fresh_engine))))) = Normal
  /\ snd ((stop >> stop) (fst (start (fst (plugin_init fresh_engine)))))
     = Raised ValueError.
Proof. split; vm_compute; reflexivity. Qed.

(* ================================================================== *)
(** * Further properties of the display *)
(* ================================================================== *)

(** ** The poll never multiplies *)

Lemma step_one_timer (a : action) (g : GUI) :
  one_timer g -> one_timer (fst (step a g)).
Proof.
  unfold one_timer; step_cases a g; intros H; cbn in *; try lia; try done.
Qed.

(** X1.  In every state the object can reach from its constructor,
    once the widgets exist, the number of armed poll timers plus one if
    the GUI thread is inside [process_strokes] is exactly 1.  So polls
    never multiply: at most one timer is armed, none while a poll runs,
    and a poll that ends has armed exactly one.  Nothing is said about
    that timer firing: the count is the same after the window was
    closed. *)
Theorem poll_timer_single (sched : list action) :
  one_timer (after sched StrokeCounterGUI.__init__).
Proof. by apply (after_invariant one_timer step_one_timer). Qed.

(** ** [process_strokes] in closed form *)

(** X2.  On an object with widgets, [process_strokes] returns normally, empties
    the queue, queues one [_update_count] per increment, in the order of
    the queue and behind the callbacks already pending, arms one more
    timer, and leaves the count, the label and the readiness flag
    alone. *)
Theorem process_strokes_posts_queue (g : GUI) (u : UI) :
  ui g = Some u ->
  process_strokes g
  = (mkGUI (stroke_count g) (wx_ready g) []
       (Some (mkUI (title u) (text u) (reset_button u) (frame u)
                (pending u ++ map Cb_update_count (stroke_queue g))
                (S (timers u)) (mainloop u) (polling u))),
     Normal).
Proof.
  destruct g as [c r q o]; cbn. intros ->. by rewrite process_strokes_spec.
Qed.

Lemma process_strokes_posts_queue_witness :
  process_strokes
    (mkGUI 4 true [1%Z; 1%Z]
       (Some (mkUI "Stroke Counter" "Total Strokes: 4" "Reset Counter" Shown
                [Cb_reset_count] 0 true false)))
  = (mkGUI 4 true []
       (Some (mkUI "Stroke Counter" "Total Strokes: 4" "Reset Counter" Shown
                [Cb_reset_count; Cb_update_count 1; Cb_update_count 1]
                1 true false)),
     Normal).
Proof.
  exact (process_strokes_posts_queue
           (mkGUI 4 true [1%Z; 1%Z]
              (Some (mkUI "Stroke Counter" "Total Strokes: 4" "Reset Counter"
                       Shown [Cb_reset_count] 0 true false)))
           (mkUI "Stroke Counter" "Total Strokes: 4" "Reset Counter" Shown
              [Cb_reset_count] 0 true false)
           eq_refl).
Defined.

(** ** The count never runs ahead of the strokes *)

Lemma step_total (a : action) (g : GUI) :
  units g ->
  (total (fst (step a g)) <= total g + (if is_put a then 1 else 0))%Z.
Proof.
  unfold units, total, inflight; step_cases a g; intros (Hq & Hp & Hc);
    cbn in *;
    rewrite ?omap_app, ?carried_updates, ?sumZ_app, ?sumZ_cons, ?sumZ_nil;
    cbn; rewrite ?sumZ_cons, ?sumZ_nil; try lia.
  all: apply sumZ_nonneg in Hp; [rewrite ?sumZ_cons in Hp; lia|].
  all: eapply Forall_impl; [exact Hp | cbn; intros; lia].
Qed.

Lemma after_total (sched : list action) (g : GUI) :
  units g ->
  (total (after sched g) <= total g + Z.of_nat (puts sched))%Z.
Proof.
  revert g; induction sched as [|a sched IH]; intros g Hu.
  - cbn. lia.
  - rewrite after_cons, puts_cons.
    pose proof (step_total a g Hu). pose proof (IH _ (step_units a g Hu)).
    destruct (is_put a); lia.
Qed.

Lemma units_total (g : GUI) :
  units g ->
  (0 <= stroke_count g <= total g)%Z
  /\ sumZ (inflight g) = Z.of_nat (length (inflight g))
  /\ sumZ (stroke_queue g) = Z.of_nat (length (stroke_queue g)).
Proof.
  intros (Hq & Hp & Hc). unfold total.
  rewrite (sumZ_ones _ Hq), (sumZ_ones _ Hp). lia.
Qed.

Lemma fold_without_reset (p : list callback) (c : Z) :
  Cb_reset_count ∉ p ->
  fold_left count_after p c = (c + sumZ (omap carried p))%Z.
Proof.
  revert c; induction p as [|cb p IH]; intros c Hno.
  - cbn. rewrite sumZ_nil. lia.
  - apply not_elem_of_cons in Hno as [Hcb Hno]. cbn [fold_left].
    rewrite IH by exact Hno.
    destruct cb; try congruence; cbn; rewrite ?sumZ_cons; lia.
Qed.

Lemma step_reset_free (a : action) (g : GUI) :
  is_reset a = false -> reset_free g -> reset_free (fst (step a g)).
Proof.
  unfold reset_free; step_cases a g; intros Ha Hno; try discriminate Ha;
    cbn in *; rewrite ?elem_of_app, ?elem_of_cons, ?list_elem_of_fmap in *;
    try tauto.
  all: try (intros [?|[?|?%elem_of_nil]]; [tauto | discriminate | done]).
  all: try (intros [?|(? & ? & ?)]; [tauto | discriminate]).
  all: try (intros [?|?%elem_of_nil]; [discriminate | done]).
Qed.

Lemma after_without_reset (sched : list action) (g : GUI) :
  forallb (fun a => negb (is_reset a)) sched = true ->
  reset_free g ->
  reset_free (after sched g)
  /\ eventual (after sched g) = (eventual g + Z.of_nat (puts sched))%Z.
Proof.
  revert g; induction sched as [|a sched IH]; intros g Hall Hg.
  - split; [exact Hg | cbn; lia].
  - cbn [forallb] in Hall. apply andb_prop in Hall as [Ha Hall].
    apply negb_true_iff in Ha.
    destruct (IH _ Hall (step_reset_free a g Ha Hg)) as [I1 I2].
    rewrite after_cons, puts_cons. split; [exact I1|].
    rewrite I2, step_eventual. destruct a; try discriminate Ha; cbn; lia.
Qed.

(** X3.  At every moment the count is between 0 and the number of
    [update_count] calls made so far, resets or not; and as long as no
    reset was requested, every call is accounted for: the count plus the
    increments pending callbacks carry plus the increments in the queue
    is the number of calls. *)
Theorem count_never_ahead (sched : list action) :
  (0 <= stroke_count (after sched StrokeCounterGUI.__init__)
   <= Z.of_nat (puts sched))%Z
  /\ (forallb (fun a => negb (is_reset a)) sched = true ->
      (stroke_count (after sched StrokeCounterGUI.__init__)
       + Z.of_nat (length (inflight (after sched StrokeCounterGUI.__init__)))
       + Z.of_nat (length (stroke_queue (after sched StrokeCounterGUI.__init__)))
       = Z.of_nat (puts sched))%Z).
Proof.
  destruct init_invariants as (He & _ & Hu).
  pose proof (after_invariant units step_units sched _ Hu) as Hu'.
  destruct (units_total _ Hu') as (Hc & Hi & Hq).
  split.
  - pose proof (after_total sched _ Hu) as Ht.
    change (total StrokeCounterGUI.__init__) with 0%Z in Ht. lia.
  - intros Hall.
    destruct (after_without_reset sched StrokeCounterGUI.__init__ Hall I)
      as [Hfree Hev].
    rewrite He in Hev. rewrite <- Hi, <- Hq.
    unfold eventual in Hev. unfold reset_free in Hfree. unfold inflight.
    destruct (ui (after sched StrokeCounterGUI.__init__)) as [u|].
    + rewrite fold_without_reset in Hev by exact Hfree. lia.
    + cbn in Hev. rewrite sumZ_nil. lia.
Qed.

Lemma count_never_ahead_witness :
  (stroke_count (after [Call_update_count 0; Thread_run; Call_update_count 1;
                        Timer_fires; Call_close; Dispatch; Dispatch]
                       StrokeCounterGUI.__init__)
   + Z.of_nat (length (inflight
       (after [Call_update_count 0; Thread_run; Call_update_count 1;
               Timer_fires; Call_close; Dispatch; Dispatch]
              StrokeCounterGUI.__init__)))
   + Z.of_nat (length (stroke_queue
       (after [Call_update_count 0; Thread_run; Call_update_count 1;
               Timer_fires; Call_close; Dispatch; Dispatch]
              StrokeCounterGUI.__init__)))
   = 2)%Z.
Proof.
  apply (proj2 (count_never_ahead
                  [Call_update_count 0; Thread_run; Call_update_count 1;
                   Timer_fires; Call_close; Dispatch; Dispatch])).
  reflexivity.
Defined.

(** ** Nothing raises *)

Lemma step_ready_ok (a : action) (g : GUI) :
  ready_ok g -> ready_ok (fst (step a g)).
Proof.
  unfold ready_ok; step_cases a g; cbn; intros H; try done; try (by eexists).
Qed.

Lemma step_quiet (a : action) (g : GUI) :
  ready_ok g ->
  is_reset a = false \/ is_Some (ui g) ->
  forallb quiet (snd (step a g)) = true.
Proof.
  unfold ready_ok; step_cases a g; cbn; intros H Hor; try reflexivity.
  - destruct Hor as [Hor|[? Hor]]; discriminate Hor.
  - destruct H as [? H]; [reflexivity | discriminate H].
Qed.

Lemma step_keeps_widgets (a : action) (g : GUI) :
  is_Some (ui g) -> is_Some (ui (fst (step a g))).
Proof.
  intros [u Hu]. destruct g as [c r q o]; cbn in Hu; subst o.
  destruct u as [? ? ? ? ? ? ? ?].
  destruct a; unfold step, idle, update_count, reset_count, close, run,
         call, _update_count, _reset_count, get_and_post;
    meth_unfold; step_split; meth_unfold; by eexists.
Qed.

Lemma trace_quiet (sched : list action) (g : GUI) :
  ready_ok g ->
  forallb (fun a => negb (is_reset a)) sched = true \/ is_Some (ui g) ->
  forallb quiet (trace sched g) = true.
Proof.
  revert g; induction sched as [|a sched IH]; intros g Hr Hor; [reflexivity|].
  rewrite trace_cons, forallb_app. apply andb_true_intro. split.
  - apply step_quiet; [exact Hr|]. destruct Hor as [Hall|Hs]; [left | by right].
    cbn [forallb] in Hall. apply andb_prop in Hall as [Ha _].
    by apply negb_true_iff.
  - apply IH; [by apply step_ready_ok|]. destruct Hor as [Hall|Hs].
    + left. cbn [forallb] in Hall. by apply andb_prop in Hall as [_ Hall].
    + right. by apply step_keeps_widgets.
Qed.

(** X4.  No call raises once the GUI thread has run, whoever calls
    [update_count], [reset_count] or [close] and whatever the main loop
    runs; before that only [reset_count] can raise ([close] is guarded
    by [wx_ready], [update_count] only touches the queue). *)
Theorem nothing_raises (sched : list action) :
  forallb quiet (trace sched started) = true
  /\ (forallb (fun a => negb (is_reset a)) sched = true ->
      forallb quiet (trace sched StrokeCounterGUI.__init__) = true).
Proof.
  split.
  - apply trace_quiet; [|right; by eexists]. intros _. by eexists.
  - intros Hall. apply trace_quiet; [|by left]. intros H. discriminate H.
Qed.

Lemma nothing_raises_witness :
  forallb quiet
    (trace [Call_close; Call_update_count 3; Thread_run;
            Timer_fires; Dispatch; Dispatch; Call_close; Dispatch; Dispatch]
           StrokeCounterGUI.__init__) = true
  /\ trace [Call_reset_count] StrokeCounterGUI.__init__ = [Error AssertionError].
Proof.
  split; [|reflexivity].
  apply (proj2 (nothing_raises
                  [Call_close; Call_update_count 3; Thread_run;
                   Timer_fires; Dispatch; Dispatch;
                   Call_close; Dispatch; Dispatch])).
  reflexivity.
Defined.

(** ** A running display can always be drained *)

Lemma step_not_closing (a : action) (g : GUI) :
  is_close a = false -> not_closing g -> not_closing (fst (step a g)).
Proof.
  intros Ha [Hn|Hs]; [|right; by apply step_showing].
  destruct g as [c r q o]; cbn in Hn; subst o.
  destruct a; try discriminate Ha; unfold step, update_count, reset_count, run;
    meth_unfold; try (by left).
  right. eexists. split; [reflexivity|]. cbn. repeat split.
  rewrite elem_of_cons. intros [?|?%elem_of_nil]; [discriminate | done].
Qed.

Lemma after_not_closing (sched : list action) (g : GUI) :
  forallb (fun a => negb (is_close a)) sched = true ->
  not_closing g -> not_closing (after sched g).
Proof.
  revert g; induction sched as [|a sched IH]; intros g Hall Hg; [exact Hg|].
  cbn [forallb] in Hall. apply andb_prop in Hall as [Ha Hall].
  rewrite after_cons. apply IH; [exact Hall|].
  apply step_not_closing; [by apply negb_true_iff | exact Hg].
Qed.

(** X5.  As long as [close] has not been called, a display whose thread has
    run can be drained whenever the GUI thread is between two polls: the
    armed timer fires, and the main loop runs what is pending. *)
Theorem running_display_drains (sched : list action) (u : UI) :
  forallb (fun a => negb (is_close a)) sched = true ->
  ui (after sched StrokeCounterGUI.__init__) = Some u ->
  polling u = false ->
  drained (after (poll_schedule (after sched StrokeCounterGUI.__init__))
                 (after sched StrokeCounterGUI.__init__)) = true.
Proof.
  intros Hall Hu Hp. apply poll_schedule_drains.
  pose proof (after_invariant one_timer step_one_timer sched
                StrokeCounterGUI.__init__ I) as Ht.
  pose proof (after_not_closing sched StrokeCounterGUI.__init__ Hall
                (or_introl eq_refl)) as Hs.
  destruct Hs as [Hs|(u' & Hu' & _ & Hm & Hno)]; [congruence|].
  assert (u' = u) as -> by congruence.
  unfold pollable, one_timer, idle in *. rewrite Hu in *.
  rewrite Hm, Hp in *. cbn [andb negb].
  rewrite !bool_decide_eq_true_2; [reflexivity | exact Hno | lia].
Qed.

Lemma running_display_drains_witness :
  drained
    (after (poll_schedule
              (after [Call_update_count 0; Thread_run; Call_reset_count;
                      Call_update_count 1; Dispatch]
                     StrokeCounterGUI.__init__))
           (after [Call_update_count 0; Thread_run; Call_reset_count;
                   Call_update_count 1; Dispatch]
                  StrokeCounterGUI.__init__)) = true.
Proof.
  refine (running_display_drains
            [Call_update_count 0; Thread_run; Call_reset_count;
             Call_update_count 1; Dispatch]
            (mkUI "Stroke Counter" "Total Strokes: 0" "Reset Counter" Shown
               [Cb_reset_count] 1 true false)
            eq_refl _ eq_refl).
  vm_compute. reflexivity.
Defined.

(** ** Counting goes on after a reset *)

(** X6.  After [reset_count], strokes keep being counted: whatever the
    interleaving of later [update_count] calls with the GUI thread, a
    drained display shows the increments that were in the queue at the
    reset plus the calls made since. *)
Theorem reset_then_count_on (g : GUI) (u : UI) (sched : list action) :
  ui g = Some u ->
  forallb gui_or_put sched = true ->
  drained (after sched (fst (reset_count g))) = true ->
  stroke_count (after sched (fst (reset_count g)))
  = (sumZ (stroke_queue g) + Z.of_nat (puts sched))%Z
  /\ displayed (after sched (fst (reset_count g)))
     = Some ("Total Strokes: "
             +:+ pretty (sumZ (stroke_queue g) + Z.of_nat (puts sched))%Z).
Proof.
  intros Hu Hall Hdr. destruct (reset_settles g u Hu) as [Hset Hev].
  assert (Hc : stroke_count (after sched (fst (reset_count g)))
               = (sumZ (stroke_queue g) + Z.of_nat (puts sched))%Z).
  { by rewrite <- (drained_eventual _ Hdr), after_eventual, Hev by exact Hall. }
  split; [exact Hc|]. rewrite <- Hc.
  apply drained_settles; [exact Hdr|].
  apply after_invariant; [apply step_settles | exact Hset].
Qed.

Lemma reset_then_count_on_witness :
  displayed
    (after [Call_update_count 0; Dispatch; Dispatch; Timer_fires;
            Call_update_count 1; Dispatch; Dispatch; Timer_fires; Dispatch]
           (fst (reset_count
                   (mkGUI 5 true [1%Z]
                      (Some (mkUI "Stroke Counter" "Total Strokes: 5"
                                  "Reset Counter" Shown [Cb_Layout]
                                  1 true false))))))
  = Some "Total Strokes: 3".
Proof.
  refine (proj2 (reset_then_count_on
            (mkGUI 5 true [1%Z]
               (Some (mkUI "Stroke Counter" "Total Strokes: 5" "Reset Counter"
                           Shown [Cb_Layout] 1 true false)))
            (mkUI "Stroke Counter" "Total Strokes: 5" "Reset Counter"
                  Shown [Cb_Layout] 1 true false)
            [Call_update_count 0; Dispatch; Dispatch; Timer_fires;
             Call_update_count 1; Dispatch; Dispatch; Timer_fires; Dispatch]
            eq_refl eq_refl _)).
  vm_compute. reflexivity.
Defined.

(* ================================================================== *)
(** * Further properties of the plugin *)
(* ================================================================== *)


Section PluginMore.

Context {E : Type} `{!Host E}.

Implicit Types w : World E.





End PluginMore.

Section PluginInvariants.

Context {E : Type} `{!Host E}.

Implicit Types w : World E.

Lemma on_engine_objects (m : meth E) w :
  gui (fst (on_engine m w)) = gui w
  /\ objects (fst (on_engine m w)) = objects w
  /\ timer (fst (on_engine m w)) = timer w.
Proof. unfold on_engine. by destruct (m (engine w)). Qed.

Lemma on_object_spec (i : nat) (m : meth GUI) w :
  gui (fst (on_object i m w)) = gui w
  /\ timer (fst (on_object i m w)) = timer w
  /\ objects (fst (on_object i m w))
     = match objects w !! i with
       | Some g => <[i := fst (m g)]> (objects w)
       | None => objects w
       end.
Proof.
  unfold on_object. destruct (objects w !! i) as [g|]; [|done].
  by destruct (m g).
Qed.

Lemma close_ready_ok (g : GUI) : ready_ok g -> ready_ok (fst (close g)).
Proof.
  intros H. pose proof (step_ready_ok Call_close g H) as H'.
  cbn [step] in H'. unfold report in H'. by destruct (close g) as [g' [|e]].
Qed.

Lemma update_count_ready_ok (g : GUI) :
  ready_ok g -> ready_ok (fst (update_count g)).
Proof. intros H. exact (step_ready_ok (Call_update_count 0) g H). Qed.

Lemma World_ok_insert w (i : nat) (g : GUI) (w' : World E) :
  World_ok w -> ready_ok g ->
  (gui w' = gui w \/ gui w' = None) ->
  objects w' = <[i := g]> (objects w) ->
  World_ok w'.
Proof.
  intros [Href Hall] Hg Hgui Hobj. split.
  - intros j Hj. rewrite Hobj, length_insert. apply Href.
    destruct Hgui as [Heq|Heq]; congruence.
  - rewrite Hobj. by apply Forall_insert.
Qed.

Lemma World_ok_same w (w' : World E) :
  World_ok w -> (gui w' = gui w \/ gui w' = None) ->
  objects w' = objects w -> World_ok w'.
Proof.
  intros [Href Hall] Hgui Hobj. split.
  - intros j Hj. rewrite Hobj. apply Href. destruct Hgui; congruence.
  - by rewrite Hobj.
Qed.

Lemma start_ok w : World_ok w -> World_ok (fst (start w)).
Proof.
  intros Hok. unfold start. destruct (gui w) eqn:Hg; [exact Hok|].
  destruct Hok as [Href Hall]. unfold new_GUI, set_gui, set_objects.
  split; cbn [fst gui objects].
  - intros j Hj. injection Hj as Hj. rewrite <- Hj, length_app. cbn. lia.
  - apply Forall_app. split; [exact Hall|]. constructor; [|constructor].
    intros H. discriminate H.
Qed.

Lemma stop_ok w : World_ok w -> World_ok (fst (stop w)).
Proof.
  intros Hok. unfold stop, andthen.
  destruct (gui w) as [i|] eqn:Hg.
  - destruct (on_object_spec i close w) as (O1 & _ & O3).
    assert (Hok1 : World_ok (fst (on_object i close w))).
    { destruct (objects w !! i) as [g|] eqn:Hobj.
      - eapply World_ok_insert; [exact Hok | | by left | exact O3].
        apply close_ready_ok. destruct Hok as [_ Hall].
        by apply (Forall_lookup_1 _ _ _ _ Hall Hobj).
      - eapply World_ok_same; [exact Hok | by left | exact O3]. }
    destruct (on_object i close w) as [w1 [|x]]; cbn [fst] in *.
    + unfold assign. destruct (on_engine_objects
        (hook_disconnect "stroked" self_on_stroke) (set_gui None w1))
        as (E1 & E2 & _).
      eapply World_ok_same; [exact Hok1 | right; by rewrite E1 | by rewrite E2].
    + exact Hok1.
  - destruct (on_engine_objects
      (hook_disconnect "stroked" self_on_stroke) w) as (E1 & E2 & _).
    eapply World_ok_same; [exact Hok | by left | exact E2].
Qed.

Lemma wstep_ok (ev : event) w : World_ok w -> World_ok (wstep ev w).
Proof.
  intros Hok. destruct ev as [| | | |i a]; cbn [wstep].
  - by apply start_ok.
  - by apply stop_ok.
  - unfold on_stroke. destruct (gui w) as [i|] eqn:Hg; [|exact Hok].
    destruct (on_object_spec i update_count w) as (O1 & _ & O3).
    destruct (objects w !! i) as [g|] eqn:Hobj.
    + eapply World_ok_insert; [exact Hok | | by left | exact O3].
      apply update_count_ready_ok. destruct Hok as [_ Hall].
      by apply (Forall_lookup_1 _ _ _ _ Hall Hobj).
    + eapply World_ok_same; [exact Hok | by left | exact O3].
  - destruct (timer w); [|exact Hok]. apply start_ok.
    eapply World_ok_same; [exact Hok | by left | reflexivity].
  - destruct (objects w !! i) as [g|] eqn:Hobj; [|exact Hok].
    eapply World_ok_insert; [exact Hok | | by left | reflexivity].
    apply step_ready_ok. destruct Hok as [_ Hall].
    by apply (Forall_lookup_1 _ _ _ _ Hall Hobj).
Qed.

Lemma wexec_ok (evs : list event) w : World_ok w -> World_ok (wexec evs w).
Proof.
  revert w; induction evs as [|ev evs IH]; intros w Hok; [exact Hok|].
  rewrite wexec_cons. by apply IH, wstep_ok.
Qed.

Lemma World_ok_wf w : World_ok w -> World_wf w = true.
Proof.
  intros [Href Hall]. unfold World_wf. destruct (gui w) as [i|]; [|reflexivity].
  destruct (lookup_lt_is_Some_2 _ _ (Href i eq_refl)) as [g Hobj].
  rewrite Hobj. pose proof (Forall_lookup_1 _ _ _ _ Hall Hobj) as Hg.
  unfold ready_ok in Hg. destruct (wx_ready g); [|reflexivity].
  cbn. apply bool_decide_eq_true_2. by apply Hg.
Qed.

(** X9.  Whatever the host answers to [hook_connect] and whatever happens
    afterwards (calls of [start], [stop] and [on_stroke], the timer, the
    steps of every GUI thread), the plugin's state stays well formed:
    [self.gui] is [None] or refers to an existing GUI object, and an
    object's readiness flag is set only once its widgets exist, so
    [stop] never fails in [close]. *)
Theorem plugin_stays_well_formed (e : E) (evs : list event) :
  World_ok (wexec evs (fst (plugin_init e)))
  /\ World_wf (wexec evs (fst (plugin_init e))) = true.
Proof.
  assert (Hok : World_ok (wexec evs (fst (plugin_init e)))).
  { apply wexec_ok. unfold plugin_init, __init__, andthen, on_engine, assign.
    cbn [engine]. destruct (hook_connect "stroked" self_on_stroke e) as [e' [|x]];
      split; cbn; try discriminate; constructor. }
  split; [exact Hok | by apply World_ok_wf].
Qed.

(** ** A window that outlives the plugin *)

Lemma wstep_orphan (i : nat) (ev : event) w :
  closes i ev = false -> orphan i w -> orphan i (wstep ev w).
Proof.
  intros Hev Horig. pose proof Horig as (Hne & g & Hobj & Hshow).
  pose proof (lookup_lt_Some _ _ _ Hobj) as Hlt.
  assert (Hstart : forall w0 : World E,
            gui w0 <> Some i -> objects w0 = objects w ->
            orphan i (fst (start w0))).
  { intros w0 Hne0 Hobj0. unfold start.
    destruct (gui w0) as [j|] eqn:Hg0; cbn [fst].
    - split; [by rewrite Hg0|]. exists g. by rewrite Hobj0.
    - unfold new_GUI, set_gui, set_objects, orphan. cbn [fst gui objects].
      split; [intros [= Heq]; rewrite Hobj0 in Heq; lia|].
      exists g. split; [|exact Hshow].
      rewrite Hobj0, lookup_app_l by exact Hlt. exact Hobj. }
  assert (Hother : forall (j : nat) (m : meth GUI),
            j <> i -> objects (fst (on_object j m w)) !! i = Some g).
  { intros j m Hj. destruct (on_object_spec j m w) as (_ & _ & ->).
    destruct (objects w !! j); [|exact Hobj].
    by rewrite list_lookup_insert_ne. }
  destruct ev as [| | | |j a]; cbn [wstep].
  - by apply Hstart.
  - unfold stop, andthen. destruct (gui w) as [j|] eqn:Hg.
    + assert (Hj : j <> i) by congruence.
      pose proof (Hother j close Hj) as H1.
      destruct (on_object_spec j close w) as (O1 & _ & _).
      destruct (on_object j close w) as [w1 [|x]]; cbn [fst] in *.
      * unfold assign. destruct (on_engine_objects
          (hook_disconnect "stroked" self_on_stroke) (set_gui None w1))
          as (E1 & E2 & _).
        split; [rewrite E1; discriminate|]. exists g. by rewrite E2.
      * split; [congruence|]. by exists g.
    + destruct (on_engine_objects
        (hook_disconnect "stroked" self_on_stroke) w) as (E1 & E2 & _).
      split; [rewrite E1, Hg; discriminate|]. exists g. by rewrite E2.
  - unfold on_stroke. destruct (gui w) as [j|] eqn:Hg.
    + assert (Hj : j <> i) by congruence.
      destruct (on_object_spec j update_count w) as (O1 & _ & _).
      split; [congruence|]. exists g. split; [by apply Hother | exact Hshow].
    + exact Horig.
  - destruct (timer w); [by apply Hstart | exact Horig].
  - destruct (decide (j = i)) as [->|Hj].
    + rewrite Hobj. split; [exact Hne|]. exists (fst (step a g)).
      split; [cbn; by apply list_lookup_insert_eq|].
      apply step_showing; [|exact Hshow].
      destruct a; try reflexivity. cbn in Hev.
      by rewrite bool_decide_eq_true_2 in Hev.
    + destruct (objects w !! j); [|exact Horig].
      split; [exact Hne|]. exists g. split; [|exact Hshow].
      cbn. by rewrite list_lookup_insert_ne.
Qed.

(** X10.  [stop] called after [start] but before the GUI thread is ready
    leaves a window nobody can close: [close] does nothing, the plugin
    drops its reference, and when the thread then runs the window is
    shown and stays shown whatever the plugin and the threads do
    afterwards (further [start], [stop], strokes, polls, resets), short
    of a direct [close] on that object. *)
Theorem stop_before_ready_orphans_window
    w (i : nat) (g : GUI) (evs : list event) :
  gui w = Some i -> objects w !! i = Some g ->
  wx_ready g = false -> ui g = None ->
  forallb (fun ev => negb (closes i ev)) evs = true ->
  orphan i (wexec (Call_stop :: On_GUI i Thread_run :: evs) w).
Proof.
  intros Hg Hobj Hr Hu Hall.
  pose proof (lookup_lt_Some _ _ _ Hobj) as Hlt.
  assert (H0 : orphan i (wexec [Call_stop; On_GUI i Thread_run] w)).
  { unfold wexec. cbn [fold_left wstep].
    assert (Hstop : gui (fst (stop w)) = None
                    /\ objects (fst (stop w)) = <[i := g]> (objects w)).
    { unfold stop, andthen, on_object, assign, on_engine.
      rewrite Hg, Hobj. unfold close. rewrite Hr.
      by destruct (hook_disconnect _ _ _). }
    destruct Hstop as [S1 S2]. rewrite S2, list_lookup_insert_eq by exact Hlt.
    split; [cbn; by rewrite S1|].
    eexists. split; [cbn; apply list_lookup_insert_eq; by rewrite length_insert|].
    destruct g as [c r q o]; cbn in Hu; subst o.
    unfold step, run; meth_unfold. eexists. split; [reflexivity|]. cbn.
    repeat split. rewrite elem_of_cons.
    intros [?|?%elem_of_nil]; [discriminate | done]. }
  change (Call_stop :: On_GUI i Thread_run :: evs)
    with ([Call_stop; On_GUI i Thread_run] ++ evs).
  rewrite wexec_app. revert H0. generalize (wexec [Call_stop; On_GUI i Thread_run] w).
  induction evs as [|ev evs IH]; intros w0 H0; [exact H0|].
  cbn [forallb] in Hall. apply andb_prop in Hall as [Hev Hall].
  rewrite wexec_cons. apply IH; [exact Hall|].
  apply wstep_orphan; [by apply negb_true_iff | exact H0].
Qed.

End PluginInvariants.



Lemma stop_before_ready_orphans_window_witness :
  orphan 0 (wexec (Call_stop :: On_GUI 0 Thread_run ::
                   [Call_stop; Stroke; Call_start; On_GUI 0 Dispatch;
                    On_GUI 1 Call_close; On_GUI 0 Call_reset_count;
                    On_GUI 0 Timer_fires; Call_stop])
                  (wexec [Start_timer_fires] (fst (plugin_init fresh_engine)))).
Proof.
  assert (H1 : gui (wexec [Start_timer_fires] (fst (plugin_init fresh_engine)))
               = Some 0%nat) by (vm_compute; reflexivity).
  assert (H2 : objects (wexec [Start_timer_fires]
                              (fst (plugin_init fresh_engine))) !! 0%nat
               = Some StrokeCounterGUI.__init__) by (vm_compute; reflexivity).
  exact (stop_before_ready_orphans_window _ 0 _
           [Call_stop; Stroke; Call_start; On_GUI 0 Dispatch;
            On_GUI 1 Call_close; On_GUI 0 Call_reset_count;
            On_GUI 0 Timer_fires; Call_stop]
           H1 H2 eq_refl eq_refl eq_refl).
Defined.
